(** * pyrtools/convolutions.py: the Python wrappers around the compiled kernel

    A shallow embedding of [corrDn], [upConv] and [pointOp].  The three
    functions are glue code: they copy and reshape numpy arrays, compute the
    iteration window, allocate the output, and hand raw data pointers and
    dimensions to the C library loaded with ctypes.  The embedding therefore
    models

    - numpy arrays as array objects over a store of data buffers, so that
      copies, views ([np.reshape], [.T]) and aliasing are explicit; the
      elements are binary64 floats;
    - Python exceptions as an error monad over that store;
    - the calls into the C library as a logged effect, behind the argument
      conversion of ctypes, which refuses some Python values before the
      foreign function runs; the library itself is a parameter of the
      development (its C sources are not part of the Python module), and
      the results that need to know what it may write assume only that it
      writes through the pointers it is given.

    The arguments have the types the docstrings ask for: arrays of doubles,
    a mode string, pairs of Python ints for [step], [start] and [stop]. *)

From Stdlib Require Import ZArith String Floats.
From stdpp Require Import gmap list.

Open Scope Z_scope.

(** ** Values, buffers and the store *)

(** A data pointer: the address of the buffer behind an array. *)
Abbreviation loc := positive.

(** A buffer of C doubles: IEEE-754 binary64 numbers. *)
Abbreviation buffer := (list float).

(** The store of all live data buffers. *)
Abbreviation heap := (gmap positive (list float)).

(** Memory layout of an array object over its buffer.  The module creates
    C-contiguous arrays and, through [.T], their transposes. *)
Inductive layout := C_order | F_order.

(** A numpy array object: a pointer to its data, its shape, its layout.
    Two array objects with the same [base] share their memory. *)
Record ndarray := NDArray { base : loc; shape : list nat; order : layout }.

(** The calls that the module makes into the compiled library, with the
    arguments in the order of the call sites.  Pointer arguments are [loc]s,
    integer arguments are Python ints as the wrapper passes them (how an
    accepted int is narrowed to a C [int] is left to the library). *)
Inductive kernel_call :=
| internal_wrap_reduce
    (image : loc) (x_dim y_dim : Z) (filt : loc) (x_fdim y_fdim : Z)
    (x_start x_step x_stop y_start y_step y_stop : Z) (result : loc)
| internal_reduce
    (image : loc) (x_dim y_dim : Z) (filt temp : loc) (x_fdim y_fdim : Z)
    (x_start x_step x_stop y_start y_step y_stop : Z) (result : loc)
    (edges : string)
| internal_wrap_expand
    (image filt : loc) (x_fdim y_fdim : Z)
    (x_start x_step x_stop y_start y_step y_stop : Z) (result : loc)
    (x_rdim y_rdim : Z)
| internal_expand
    (image filt temp : loc) (x_fdim y_fdim : Z)
    (x_start x_step x_stop y_start y_step y_stop : Z) (result : loc)
    (x_rdim y_rdim : Z) (edges : string)
| internal_pointop
    (image result : loc) (size : Z) (lut : loc) (lutsize : Z)
    (origin increment : float) (warnings : Z).

(** The pointers a call hands to the library. *)
Definition pointers (k : kernel_call) : list loc :=
  match k with
  | internal_wrap_reduce image _ _ filt _ _ _ _ _ _ _ _ result =>
      [image; filt; result]
  | internal_reduce image _ _ filt temp _ _ _ _ _ _ _ _ result _ =>
      [image; filt; temp; result]
  | internal_wrap_expand image filt _ _ _ _ _ _ _ _ result _ _ =>
      [image; filt; result]
  | internal_expand image filt temp _ _ _ _ _ _ _ _ result _ _ _ =>
      [image; filt; temp; result]
  | internal_pointop image result _ lut _ _ _ _ =>
      [image; result; lut]
  end.

(** The Python ints a call passes by value, in the order of the call. *)
Definition int_args (k : kernel_call) : list Z :=
  match k with
  | internal_wrap_reduce _ x_dim y_dim _ x_fdim y_fdim
      x_start x_step x_stop y_start y_step y_stop _ =>
      [x_dim; y_dim; x_fdim; y_fdim;
       x_start; x_step; x_stop; y_start; y_step; y_stop]
  | internal_reduce _ x_dim y_dim _ _ x_fdim y_fdim
      x_start x_step x_stop y_start y_step y_stop _ _ =>
      [x_dim; y_dim; x_fdim; y_fdim;
       x_start; x_step; x_stop; y_start; y_step; y_stop]
  | internal_wrap_expand _ _ x_fdim y_fdim
      x_start x_step x_stop y_start y_step y_stop _ x_rdim y_rdim =>
      [x_fdim; y_fdim; x_start; x_step; x_stop; y_start; y_step; y_stop;
       x_rdim; y_rdim]
  | internal_expand _ _ _ x_fdim y_fdim
      x_start x_step x_stop y_start y_step y_stop _ x_rdim y_rdim _ =>
      [x_fdim; y_fdim; x_start; x_step; x_stop; y_start; y_step; y_stop;
       x_rdim; y_rdim]
  | internal_pointop _ _ size _ lutsize _ _ warnings =>
      [size; lutsize; warnings]
  end.

(** The Python strings a call passes: the mode, on the generic paths. *)
Definition str_args (k : kernel_call) : list string :=
  match k with
  | internal_reduce _ _ _ _ _ _ _ _ _ _ _ _ _ _ edges
  | internal_expand _ _ _ _ _ _ _ _ _ _ _ _ _ _ edges => [edges]
  | _ => []
  end.


(** The filter dimensions [(x_fdim, y_fdim)] a call carries. *)
Definition filt_dims (k : kernel_call) : option (Z * Z) :=
  match k with
  | internal_wrap_reduce _ _ _ _ x_fdim y_fdim _ _ _ _ _ _ _
  | internal_reduce _ _ _ _ _ x_fdim y_fdim _ _ _ _ _ _ _ _
  | internal_wrap_expand _ _ x_fdim y_fdim _ _ _ _ _ _ _ _ _
  | internal_expand _ _ _ x_fdim y_fdim _ _ _ _ _ _ _ _ _ _ =>
      Some (x_fdim, y_fdim)
  | internal_pointop _ _ _ _ _ _ _ _ => None
  end.

(** The end of the window [(x_stop, y_stop)] a call carries. *)
Definition stop_args (k : kernel_call) : option (Z * Z) :=
  match k with
  | internal_wrap_reduce _ _ _ _ _ _ _ _ x_stop _ _ y_stop _
  | internal_reduce _ _ _ _ _ _ _ _ _ x_stop _ _ y_stop _ _
  | internal_wrap_expand _ _ _ _ _ _ x_stop _ _ y_stop _ _ _
  | internal_expand _ _ _ _ _ _ _ x_stop _ _ y_stop _ _ _ _ =>
      Some (x_stop, y_stop)
  | internal_pointop _ _ _ _ _ _ _ _ => None
  end.

(** The result dimensions [(x_rdim, y_rdim)] a call carries. *)
Definition result_dims (k : kernel_call) : option (Z * Z) :=
  match k with
  | internal_wrap_expand _ _ _ _ _ _ _ _ _ _ _ x_rdim y_rdim
  | internal_expand _ _ _ _ _ _ _ _ _ _ _ _ x_rdim y_rdim _ =>
      Some (x_rdim, y_rdim)
  | _ => None
  end.

(** The result pointer of a call. *)
Definition result_ptr (k : kernel_call) : loc :=
  match k with
  | internal_wrap_reduce _ _ _ _ _ _ _ _ _ _ _ _ result
  | internal_reduce _ _ _ _ _ _ _ _ _ _ _ _ _ result _
  | internal_wrap_expand _ _ _ _ _ _ _ _ _ _ result _ _
  | internal_expand _ _ _ _ _ _ _ _ _ _ _ result _ _ _
  | internal_pointop _ result _ _ _ _ _ _ => result
  end.

(** The filter pointer of a call. *)
Definition filt_ptr (k : kernel_call) : option loc :=
  match k with
  | internal_wrap_reduce _ _ _ filt _ _ _ _ _ _ _ _ _
  | internal_reduce _ _ _ filt _ _ _ _ _ _ _ _ _ _ _
  | internal_wrap_expand _ filt _ _ _ _ _ _ _ _ _ _ _
  | internal_expand _ filt _ _ _ _ _ _ _ _ _ _ _ _ _ => Some filt
  | internal_pointop _ _ _ _ _ _ _ _ => None
  end.

(** The interpreter state: the store, and the trace of library calls, each
    with the store it was made in. *)
Record state := State {
  store : heap;
  calls : list (kernel_call * heap)
}.

(** The filter elements that a logged call was given. *)
Definition filt_seen (c : kernel_call * heap) : option buffer :=
  p ← filt_ptr c.1; c.2 !! p.

(** ** Python exceptions and the monad of the wrappers *)

Inductive exn :=
| IndexError            (* tuple index out of range *)
| ValueError            (* numpy: bad shape; range(): zero step *)
| TypeError             (* len() of unsized object *)
| ArgumentError         (* ctypes: an argument that cannot be converted *)
| Exception (msg : string).

Definition M (A : Type) : Type := state -> (exn + A) * state.

#[global] Instance M_ret : MRet M := fun A x s => (inr x, s).

#[global] Instance M_bind : MBind M := fun A B f m s =>
  match m s with
  | (inl e, s') => (inl e, s')
  | (inr x, s') => f x s'
  end.

Definition raise {A : Type} (e : exn) : M A := fun s => (inl e, s).

(** Allocation of a new buffer at an address that is not in use. *)
Definition alloc (b : buffer) : M loc := fun s =>
  let l := fresh (dom (store s)) in
  (inr l, State (<[l := b]> (store s)) (calls s)).

(** The contents of the memory behind an array object. *)
Definition deref (a : ndarray) : M buffer := fun s =>
  (inr (default [] (store s !! base a)), s).

(** ** The numpy operations the module uses *)

(** [a.size]: the number of elements. *)
Definition ndarray_size (a : ndarray) : nat := foldr Nat.mul 1%nat (shape a).

(** All multi-indices of a shape, in row-major order. *)
Fixpoint indices (s : list nat) : list (list nat) :=
  match s with
  | [] => [[]]
  | n :: s' => i ← seq 0 n; (cons i) <$> indices s'
  end.

(** Row-major offset of a multi-index. *)
Definition offset (s idx : list nat) : nat :=
  fold_left (fun acc ni => (acc * ni.1 + ni.2)%nat) (zip s idx) 0%nat.

(** The elements of an array in row-major (C) order, as [a.ravel()] lists
    them.  A transposed view reads its buffer with the indices reversed. *)
Definition ravel (a : ndarray) (b : buffer) : buffer :=
  match order a with
  | C_order => b
  | F_order =>
      (fun idx => default 0%float (b !! offset (rev (shape a)) (rev idx)))
        <$> indices (shape a)
  end.

(** Whether the elements lie in memory in row-major order. *)
Definition c_contiguous (a : ndarray) : bool :=
  match order a with
  | C_order => true
  | F_order =>
      bool_decide (ndarray_size a = 0%nat)
      || bool_decide (length (filter (fun n => n ≠ 1%nat) (shape a)) ≤ 1)%nat
  end.

(** [a.shape[i]] *)
Definition shape_at (a : ndarray) (i : nat) : M Z :=
  match shape a !! i with
  | Some n => mret (Z.of_nat n)
  | None => raise IndexError
  end.

(** [len(a)] *)
Definition len (a : ndarray) : M Z :=
  match shape a with
  | n :: _ => mret (Z.of_nat n)
  | [] => raise TypeError
  end.

(** [a.ctypes.data_as(ctypes.POINTER(ctypes.c_double))] *)
Definition data_as (a : ndarray) : loc := base a.

(** [a.copy()]: a new C-contiguous array with the same elements. *)
Definition ndarray_copy (a : ndarray) : M ndarray :=
  b ← deref a;
  l ← alloc (ravel a b);
  mret (NDArray l (shape a) C_order).

(** [np.array(a)]: a new array; the memory layout is kept. *)
Definition np_array (a : ndarray) : M ndarray :=
  b ← deref a;
  l ← alloc b;
  mret (NDArray l (shape a) (order a)).

(** [np.zeros(dims)] *)
Definition np_zeros (dims : list Z) : M ndarray :=
  if forallb (Z.leb 0) dims then
    let s := Z.to_nat <$> dims in
    l ← alloc (replicate (foldr Nat.mul 1%nat s) 0%float);
    mret (NDArray l s C_order)
  else raise ValueError.

(** [np.append(a, v)]: both flattened, then concatenated into a new 1-d
    array. *)
Definition np_append (a : ndarray) (v : float) : M ndarray :=
  b ← deref a;
  l ← alloc (ravel a b ++ [v]);
  mret (NDArray l [S (ndarray_size a)] C_order).

(** The shape that [np.reshape] gives [n] elements for the requested
    [newshape]: one dimension may be [-1] and is then inferred. *)
Definition resolve_shape (n : nat) (newshape : list Z) : option (list nat) :=
  let known := filter (fun d => d ≠ -1) newshape in
  let p := foldr Z.mul 1 known in
  if negb (forallb (Z.leb 0) known) then None
  else if bool_decide (length known = length newshape) then
    if bool_decide (p = Z.of_nat n)
    then Some (Z.to_nat <$> newshape) else None
  else if bool_decide (S (length known) = length newshape) then
    if bool_decide (0 < p) && bool_decide (Z.of_nat n mod p = 0)
    then Some ((fun d => if bool_decide (d = -1)
                         then Z.to_nat (Z.of_nat n / p) else Z.to_nat d)
                 <$> newshape)
    else None
  else None.

(** [np.reshape(a, newshape)]: a view on the same memory when the elements
    are contiguous, otherwise a view on a copy. *)
Definition np_reshape (a : ndarray) (newshape : list Z) : M ndarray :=
  match resolve_shape (ndarray_size a) newshape with
  | None => raise ValueError
  | Some s =>
      if c_contiguous a then mret (NDArray (base a) s C_order)
      else a' ← ndarray_copy a; mret (NDArray (base a') s C_order)
  end.

(** [a.T]: the transposed view. *)
Definition ndarray_T (a : ndarray) : ndarray :=
  NDArray (base a) (rev (shape a))
    match order a with C_order => F_order | F_order => C_order end.

(** Number of elements of [range(start, stop, step)] for a nonzero step. *)
Definition range_size (start stop step : Z) : Z :=
  if bool_decide (0 < step) then
    if bool_decide (start < stop) then (stop - start - 1) / step + 1 else 0
  else
    if bool_decide (stop < start) then (start - stop - 1) / (- step) + 1 else 0.

(** [len(list(range(start, stop, step)))] *)
Definition range_len (start stop step : Z) : M Z :=
  if bool_decide (step = 0) then raise ValueError
  else mret (range_size start stop step).

(** ** The argument conversion of ctypes *)

(** The module declares no [argtypes], so ctypes converts each argument by
    its Python type when the foreign function is called.  A Python int is
    accepted when it fits a C [unsigned long] or a C [long], of 64 bits
    each on Linux and macOS (LP64); a [str] is passed as a wide string and
    accepted when it has no embedded NUL.  Pointers and [c_double] values
    are always accepted. *)
Definition c_long (n : Z) : Prop := - 2 ^ 63 <= n < 2 ^ 64.

#[global] Instance c_long_dec (n : Z) : Decision (c_long n).
Proof. unfold c_long. apply _. Defined.

Fixpoint nul_free (s : string) : bool :=
  match s with
  | EmptyString => true
  | String c s' => negb (Ascii.eqb c Ascii.zero) && nul_free s'
  end.

(** Whether ctypes can convert every argument of a call. *)
Definition converts (k : kernel_call) : bool :=
  forallb (fun n => bool_decide (c_long n)) (int_args k)
  && forallb nul_free (str_args k).

(** ** The wrappers *)

Section Wrappers.

(** The compiled library: given a call and the store, it returns the C
    function's [int] result and the store after the call.  What the C code
    computes is not fixed here; a crash of the process is outside the
    model, and so is running out of memory. *)
Variable lib : kernel_call -> heap -> Z * heap.

(** A call through ctypes.  An argument that cannot be converted raises
    [ctypes.ArgumentError] and the foreign function is not called.  The
    foreign function itself cannot raise a Python exception; its return
    value comes back as a Python int. *)
Definition call_lib (k : kernel_call) : M Z := fun s =>
  if converts k then
    let r := lib k (store s) in
    (inr r.1, State r.2 (calls s ++ [(k, store s)]))
  else (inl ArgumentError, s).

(** [corrDn(image, filt, edges='reflect1', step=(1, 1), start=(0, 0),
            stop=None, result=None)] *)
Definition corrDn (image filt : ndarray) (edges : string)
    (step start : Z * Z) (stop : option (Z * Z)) (result : option ndarray)
    : M ndarray :=
  image ← ndarray_copy image;
  filt ← ndarray_copy filt;
  filt ← (if bool_decide (length (shape filt) = 1%nat)
          then n ← len filt; np_reshape filt [1; n]
          else mret filt);
  stop ← match stop with
         | None =>
             s0 ← shape_at image 0; s1 ← shape_at image 1; mret (s0, s1)
         | Some stop => mret stop
         end;
  result ← match result with
           | None =>
               rxsz ← range_len start.1 stop.1 step.1;
               rysz ← range_len start.2 stop.2 step.2;
               np_zeros [rxsz; rysz]
           | Some result => r ← ndarray_copy result; np_array r
           end;
  _ ← (if String.eqb edges "circular" then
         i1 ← shape_at image 1; i0 ← shape_at image 0;
         f1 ← shape_at filt 1; f0 ← shape_at filt 0;
         call_lib (internal_wrap_reduce
                     (data_as image) i1 i0 (data_as filt) f1 f0
                     start.2 step.2 stop.2 start.1 step.1 stop.1
                     (data_as result))
       else
         t0 ← shape_at filt 0; t1 ← shape_at filt 1;
         tmp ← np_zeros [t0; t1];
         i1 ← shape_at image 1; i0 ← shape_at image 0;
         f1 ← shape_at filt 1; f0 ← shape_at filt 0;
         call_lib (internal_reduce
                     (data_as image) i1 i0 (data_as filt) (data_as tmp) f1 f0
                     start.2 step.2 stop.2 start.1 step.1 stop.1
                     (data_as result) edges));
  mret result.

(** The condition of the padding in [upConv]:
    [(edges != "reflect1" or edges != "extend" or edges != "repeat") and
     (filt.shape[0] % 2 == 0 or filt.shape[1] % 2 == 0)],
    evaluated left to right with Python's short-circuit rules. *)
Definition even_sized (edges : string) (filt : ndarray) : M bool :=
  if negb (String.eqb edges "reflect1")
     || negb (String.eqb edges "extend")
     || negb (String.eqb edges "repeat")
  then
    f0 ← shape_at filt 0;
    if bool_decide (f0 `mod` 2 = 0) then mret true
    else f1 ← shape_at filt 1; mret (bool_decide (f1 `mod` 2 = 0))
  else mret false.

(** The body of that conditional: a column or a row gets one trailing zero,
    any other filter is refused. *)
Definition pad_even (filt : ndarray) : M ndarray :=
  f1 ← shape_at filt 1;
  if bool_decide (f1 = 1) then
    filt ← np_append filt 0%float;
    n ← len filt; np_reshape filt [n; 1]
  else
    f0 ← shape_at filt 0;
    if bool_decide (f0 = 1) then
      filt ← np_append filt 0%float;
      n ← len filt; np_reshape filt [1; n]
    else
      raise (Exception "Even sized 2D filters not yet supported by upConv.").

(** [upConv(image, filt, edges='reflect1', step=(1, 1), start=(0, 0),
            stop=None, result=None)] *)
Definition upConv (image filt : ndarray) (edges : string)
    (step start : Z * Z) (stop : option (Z * Z)) (result : option ndarray)
    : M ndarray :=
  image ← ndarray_copy image;
  filt ← ndarray_copy filt;
  filt ← (if bool_decide (length (shape filt) = 1%nat)
          then n ← len filt; np_reshape filt [1; n]
          else mret filt);
  even ← even_sized edges filt;
  filt ← (if even : bool then pad_even filt else mret filt);
  stop ← match stop, result with
         | None, None =>
             s0 ← shape_at image 0; s1 ← shape_at image 1;
             mret (s0 * step.1, s1 * step.2)
         | None, Some result =>
             r0 ← shape_at result 0; r1 ← shape_at result 1; mret (r0, r1)
         | Some stop, _ => mret stop
         end;
  result ← match result with
           | None => np_zeros [stop.2; stop.1]
           | Some result => r ← ndarray_copy result; np_array r
           end;
  t1 ← shape_at filt 1; t0 ← shape_at filt 0;
  temp ← np_zeros [t1; t0];
  if String.eqb edges "circular" then
    f1 ← shape_at filt 1; f0 ← shape_at filt 0;
    _ ← call_lib (internal_wrap_expand
                    (data_as image) (data_as filt) f1 f0
                    start.2 step.2 stop.2 start.1 step.1 stop.1
                    (data_as result) stop.2 stop.1);
    mret (ndarray_T result)
  else
    f1 ← shape_at filt 1; f0 ← shape_at filt 0;
    _ ← call_lib (internal_expand
                    (data_as image) (data_as filt) (data_as temp) f1 f0
                    start.2 step.2 stop.2 start.1 step.1 stop.1
                    (data_as result) stop.2 stop.1 edges);
    np_reshape result [stop.1; stop.2].

(** [pointOp(image, lut, origin, increment, warnings)] *)
Definition pointOp (image lut : ndarray) (origin increment : float)
    (warnings : Z) : M ndarray :=
  i0 ← shape_at image 0; i1 ← shape_at image 1;
  result ← np_zeros [i0; i1];
  i0 ← shape_at image 0; i1 ← shape_at image 1;
  n ← shape_at lut 0;
  _ ← call_lib (internal_pointop
                  (data_as image) (data_as result) (i0 * i1)
                  (data_as lut) n origin increment warnings);
  np_array result.

End Wrappers.

(** ** Reasoning about runs *)

(** [wp m s Q]: running [m] from [s] ends in an outcome and a state that
    satisfy [Q]. *)
Definition wp {A : Type} (m : M A) (s : state)
    (Q : exn + A -> state -> Prop) : Prop :=
  Q (m s).1 (m s).2.

(** The library writes only through the pointers it is given, and buffers
    keep their size: C code neither allocates nor frees array memory. *)
Definition footprint (lib : kernel_call -> heap -> Z * heap) : Prop :=
  forall k h l,
    (l ∉ pointers k -> (lib k h).2 !! l = h !! l) /\
    length <$> (lib k h).2 !! l = length <$> h !! l.

(** Relative to the state [s0] at the time of a call to a wrapper, a later
    state [s] has kept every buffer of [s0] as it was, and every library call
    made since was given only pointers to buffers allocated after [s0]. *)
Definition kept (s0 s : state) : Prop :=
  (forall l, l ∈ dom (store s0) -> store s !! l = store s0 !! l) /\
  exists new,
    calls s = calls s0 ++ new /\
    Forall (fun c : kernel_call * heap =>
              Forall (fun p => p ∉ dom (store s0)) (pointers c.1)) new.

(** An array whose memory did not exist in [s0]. *)
Definition is_new (s0 : state) (a : ndarray) : Prop :=
  base a ∉ dom (store s0).

(** [post s0 m P]: from any state that has [kept] the buffers of [s0], [m]
    ends in such a state again, and a returned value satisfies [P]. *)
Definition post (s0 : state) {A : Type} (m : M A) (P : A -> Prop) : Prop :=
  forall s, kept s0 s ->
    kept s0 (m s).2 /\ forall x, (m s).1 = inr x -> P x.



(** What the padding of [upConv] makes of an [Fh] x [Fw] filter: its shape
    ([None] when the filter is refused) and its elements. *)
Definition padded_shape (Fh Fw : nat) : option (list nat) :=
  if bool_decide (Fh `mod` 2 = 0)%nat || bool_decide (Fw `mod` 2 = 0)%nat
  then
    if bool_decide (Fw = 1)%nat then Some [S Fh; 1%nat]
    else if bool_decide (Fh = 1)%nat then Some [1%nat; S Fw]
    else None
  else Some [Fh; Fw].

Definition padded_data (Fh Fw : nat) (d : buffer) : buffer :=
  if bool_decide (Fh `mod` 2 = 0)%nat || bool_decide (Fw `mod` 2 = 0)%nat
  then d ++ [0%float] else d.

(** ** A stand-in library and sample arguments *)

(** A library that writes through every pointer it receives: it adds 1.0 to
    each element behind each pointer and returns 0. *)
Definition lib_incr (k : kernel_call) (h : heap) : Z * heap :=
  (0, foldr (alter (fmap (PrimFloat.add 1))) h (pointers k)).

(** A store with buffers of 6, 2, 6, 1 and 3 doubles, and arrays over
    them. *)
Definition mem0 : state :=
  State (<[1%positive := [1; 2; 3; 4; 5; 6]%float]>
         (<[2%positive := [1; 1]%float]>
          (<[3%positive := [0; 0; 0; 0; 0; 0]%float]>
           (<[4%positive := [7]%float]>
            (<[5%positive := [1; 2; 1]%float]> ∅))))) [].

Definition image_2x3 : ndarray := NDArray 1 [2; 3]%nat C_order.
Definition filt_1x2 : ndarray := NDArray 2 [1; 2]%nat C_order.
Definition lut_1x2 : ndarray := NDArray 2 [1; 2]%nat C_order.
Definition buffer_2x3 : ndarray := NDArray 3 [2; 3]%nat C_order.
Definition lut_1 : ndarray := NDArray 4 [1]%nat C_order.



(** ** Further observations on calls, and further samples *)

(** The image pointer of a call. *)
Definition image_ptr (k : kernel_call) : loc :=
  match k with
  | internal_wrap_reduce image _ _ _ _ _ _ _ _ _ _ _ _
  | internal_reduce image _ _ _ _ _ _ _ _ _ _ _ _ _ _
  | internal_wrap_expand image _ _ _ _ _ _ _ _ _ _ _ _
  | internal_expand image _ _ _ _ _ _ _ _ _ _ _ _ _ _
  | internal_pointop image _ _ _ _ _ _ _ => image
  end.

(** The window [(x_start, x_step, x_stop)] a call carries for the fast
    axis, and [(y_start, y_step, y_stop)] for the slow one. *)
Definition x_window (k : kernel_call) : option (Z * Z * Z) :=
  match k with
  | internal_wrap_reduce _ _ _ _ _ _ x_start x_step x_stop _ _ _ _
  | internal_reduce _ _ _ _ _ _ _ x_start x_step x_stop _ _ _ _ _
  | internal_wrap_expand _ _ _ _ x_start x_step x_stop _ _ _ _ _ _
  | internal_expand _ _ _ _ _ x_start x_step x_stop _ _ _ _ _ _ _ =>
      Some (x_start, x_step, x_stop)
  | internal_pointop _ _ _ _ _ _ _ _ => None
  end.

Definition y_window (k : kernel_call) : option (Z * Z * Z) :=
  match k with
  | internal_wrap_reduce _ _ _ _ _ _ _ _ _ y_start y_step y_stop _
  | internal_reduce _ _ _ _ _ _ _ _ _ _ y_start y_step y_stop _ _
  | internal_wrap_expand _ _ _ _ _ _ _ y_start y_step y_stop _ _ _
  | internal_expand _ _ _ _ _ _ _ _ y_start y_step y_stop _ _ _ _ =>
      Some (y_start, y_step, y_stop)
  | internal_pointop _ _ _ _ _ _ _ _ => None
  end.

(** The scratch buffer of a call, which only the generic kernels take. *)
Definition temp_ptr (k : kernel_call) : option loc :=
  match k with
  | internal_reduce _ _ _ _ temp _ _ _ _ _ _ _ _ _ _
  | internal_expand _ _ temp _ _ _ _ _ _ _ _ _ _ _ _ => Some temp
  | _ => None
  end.

(** The 2x3 sample image seen through its transpose, a flat view of its
    six elements, and the sample filter as a flat array. *)
Definition image_3x2_T : ndarray := NDArray 1 [3; 2]%nat F_order.
Definition image_6 : ndarray := NDArray 1 [6]%nat C_order.
Definition filt_2 : ndarray := NDArray 2 [2]%nat C_order.

(** ** Rules for running the monad *)

Lemma wp_bind {A B : Type} (m : M A) (f : A -> M B) s Q :
  wp m s (fun r s' =>
            match r with
            | inl e => Q (inl e) s'
            | inr x => wp (f x) s' Q
            end) ->
  wp (m ≫= f) s Q.
Proof.
  unfold wp, mbind, M_bind.
  destruct (m s) as [[e | x] s']; simpl; auto.
Qed.

Lemma wp_ret {A : Type} (x : A) s Q : Q (inr x) s -> wp (mret x) s Q.
Proof. auto. Qed.

Lemma wp_raise {A : Type} e s (Q : exn + A -> state -> Prop) :
  Q (inl e) s -> wp (raise e) s Q.
Proof. auto. Qed.

Lemma wp_run {A : Type} (m : M A) s Q :
  wp m s Q -> exists r s', m s = (r, s') /\ Q r s'.
Proof.
  unfold wp. intros H. exists (m s).1, (m s).2. split; [|done].
  by destruct (m s).
Qed.

Lemma wp_alloc b s Q :
  (forall l, l ∉ dom (store s) ->
             Q (inr l) (State (<[l := b]> (store s)) (calls s))) ->
  wp (alloc b) s Q.
Proof. intros H. apply H, is_fresh. Qed.

Lemma wp_deref a s Q :
  Q (inr (default [] (store s !! base a))) s -> wp (deref a) s Q.
Proof. auto. Qed.

Lemma wp_copy a s Q :
  (forall l, l ∉ dom (store s) ->
     Q (inr (NDArray l (shape a) C_order))
       (State (<[l := ravel a (default [] (store s !! base a))]> (store s))
              (calls s))) ->
  wp (ndarray_copy a) s Q.
Proof.
  intros H. unfold ndarray_copy.
  apply wp_bind, wp_deref, wp_bind, wp_alloc. intros l Hl.
  by apply wp_ret, H.
Qed.

Lemma wp_np_array a s Q :
  (forall l, l ∉ dom (store s) ->
     Q (inr (NDArray l (shape a) (order a)))
       (State (<[l := default [] (store s !! base a)]> (store s))
              (calls s))) ->
  wp (np_array a) s Q.
Proof.
  intros H. unfold np_array.
  apply wp_bind, wp_deref, wp_bind, wp_alloc. intros l Hl.
  by apply wp_ret, H.
Qed.

Lemma wp_append a v s Q :
  (forall l, l ∉ dom (store s) ->
     Q (inr (NDArray l [S (ndarray_size a)] C_order))
       (State (<[l := ravel a (default [] (store s !! base a)) ++ [v]]>
                 (store s))
              (calls s))) ->
  wp (np_append a v) s Q.
Proof.
  intros H. unfold np_append.
  apply wp_bind, wp_deref, wp_bind, wp_alloc. intros l Hl.
  by apply wp_ret, H.
Qed.

Lemma wp_zeros dims s Q :
  Forall (Z.le 0) dims ->
  (forall l, l ∉ dom (store s) ->
     Q (inr (NDArray l (Z.to_nat <$> dims) C_order))
       (State (<[l := replicate (foldr Nat.mul 1%nat (Z.to_nat <$> dims))
                        0%float]> (store s))
              (calls s))) ->
  wp (np_zeros dims) s Q.
Proof.
  intros Hd H. unfold np_zeros.
  assert (forallb (Z.leb 0) dims = true) as ->.
  { apply forallb_forall. intros d Hin.
    apply Z.leb_le. rewrite Forall_forall in Hd. apply Hd.
    by apply list_elem_of_In. }
  apply wp_bind, wp_alloc. intros l Hl. by apply wp_ret, H.
Qed.

Lemma wp_shape_at a i n s Q :
  shape a !! i = Some n -> Q (inr (Z.of_nat n)) s -> wp (shape_at a i) s Q.
Proof. intros Hi H. unfold shape_at. rewrite Hi. by apply wp_ret. Qed.

Lemma wp_len a n rest s Q :
  shape a = n :: rest -> Q (inr (Z.of_nat n)) s -> wp (len a) s Q.
Proof. intros Hs H. unfold len. rewrite Hs. by apply wp_ret. Qed.


Lemma wp_reshape a newshape sh s Q :
  c_contiguous a = true ->
  resolve_shape (ndarray_size a) newshape = Some sh ->
  Q (inr (NDArray (base a) sh C_order)) s ->
  wp (np_reshape a newshape) s Q.
Proof.
  intros Hc Hr H. unfold np_reshape. rewrite Hr, Hc. by apply wp_ret.
Qed.

Lemma wp_call lib k s Q :
  converts k = true ->
  Q (inr (lib k (store s)).1)
    (State (lib k (store s)).2 (calls s ++ [(k, store s)])) ->
  wp (call_lib lib k) s Q.
Proof. intros Hk HQ. unfold wp, call_lib. by rewrite Hk. Qed.


(** ctypes converts a call whose ints are in range and whose strings have
    no NUL. *)
Lemma converts_intro k :
  Forall c_long (int_args k) ->
  Forall (fun e => nul_free e = true) (str_args k) ->
  converts k = true.
Proof.
  intros Hi Hs. unfold converts. apply andb_true_iff. split.
  - apply forallb_forall. intros n Hn. apply bool_decide_eq_true.
    rewrite Forall_forall in Hi. by apply Hi, list_elem_of_In.
  - apply forallb_forall. intros e He.
    rewrite Forall_forall in Hs. by apply Hs, list_elem_of_In.
Qed.


(** Reshaping [n] elements into two non-negative dimensions of product [n]. *)
Lemma resolve_shape_2d (n a b : nat) :
  (a * b)%nat = n ->
  resolve_shape n [Z.of_nat a; Z.of_nat b] = Some [a; b].
Proof.
  intros <-. unfold resolve_shape.
  assert (filter (fun d => d ≠ -1) [Z.of_nat a; Z.of_nat b]
          = [Z.of_nat a; Z.of_nat b]) as ->.
  { do 2 (rewrite filter_cons_True by lia). done. }
  assert (forallb (Z.leb 0) [Z.of_nat a; Z.of_nat b] = true) as ->.
  { simpl. do 2 (rewrite (proj2 (Z.leb_le _ _)) by lia). done. }
  simpl. rewrite bool_decide_eq_true_2 by lia.
  by rewrite !Nat2Z.id.
Qed.

(** The guard of the padding in [upConv] holds for every mode: no string
    equals two different literals. *)
Lemma edges_guard_true (edges : string) :
  negb (String.eqb edges "reflect1")
  || negb (String.eqb edges "extend")
  || negb (String.eqb edges "repeat") = true.
Proof.
  destruct (String.eqb_spec edges "reflect1") as [-> | _]; done.
Qed.

Lemma wp_returns {A : Type} (m : M A) s (P : A -> state -> Prop) :
  wp m s (fun r s' => exists x, r = inr x /\ P x s') ->
  exists x s', m s = (inr x, s') /\ P x s'.
Proof. intros (r & s' & Hrun & x & -> & HP)%wp_run. eauto. Qed.

Lemma resolve_shape_2d_Z (n : nat) (a b : Z) :
  0 <= a -> 0 <= b -> (Z.to_nat a * Z.to_nat b)%nat = n ->
  resolve_shape n [a; b] = Some [Z.to_nat a; Z.to_nat b].
Proof.
  intros Ha Hb Hn.
  rewrite <- (Z2Nat.id a), <- (Z2Nat.id b) at 1 by done.
  by apply resolve_shape_2d.
Qed.


Lemma even_of_nat (n : nat) :
  bool_decide (Z.of_nat n `mod` 2 = 0) = bool_decide (n `mod` 2 = 0)%nat.
Proof.
  apply bool_decide_ext.
  change 2 with (Z.of_nat 2). rewrite <- Nat2Z.inj_mod. lia.
Qed.

Ltac wp_simpl := cbn [store calls base shape order data_as fst snd].

(** Splits the range hypotheses on the ints of a call into one per int. *)
Ltac c_long_hyps :=
  repeat match goal with
  | H : Forall c_long (_ :: _) |- _ => apply Forall_cons in H as [? H]
  | H : Forall c_long [] |- _ => clear H
  end.

(** Shows that a list of ints is in range, from such hypotheses. *)
Ltac c_long_list :=
  c_long_hyps;
  repeat (apply Forall_cons_2;
          [first [assumption
                 | unfold c_long in *; cbn [fst snd] in *; lia]|]);
  apply Forall_nil_2.

(** Shows that ctypes converts the call at hand. *)
Ltac solve_converts :=
  apply converts_intro; cbn [int_args str_args];
  [ c_long_list | repeat constructor; assumption ].

(** Turns the freshness of each allocated address into inequalities. *)
Ltac fresh_ne :=
  cbn [store calls] in *;
  repeat match goal with
  | H : _ ∉ dom (<[_ := _]> _) |- _ =>
      rewrite dom_insert_L in H;
      apply not_elem_of_union in H as [?%not_elem_of_singleton ?]
  end.

(** *** The phases of the wrappers *)

(** The promotion of a 1-d filter to a row, at the head of both wrappers. *)
Lemma wp_filt_2d l sh (Fh Fw : nat) s Q :
  sh = [Fh; Fw] \/ (Fh = 1%nat /\ sh = [Fw]) ->
  Q (inr (NDArray l [Fh; Fw] C_order)) s ->
  wp (if bool_decide (length (shape (NDArray l sh C_order)) = 1%nat)
      then n ← len (NDArray l sh C_order);
           np_reshape (NDArray l sh C_order) [1; n]
      else mret (NDArray l sh C_order)) s Q.
Proof.
  intros [-> | [-> ->]] HQ; wp_simpl.
  - rewrite bool_decide_eq_false_2 by (simpl; lia). by apply wp_ret.
  - rewrite bool_decide_eq_true_2 by done.
    apply wp_bind. eapply wp_len; [done|].
    eapply wp_reshape; [done | | done].
    apply (resolve_shape_2d _ 1 Fw). unfold ndarray_size. simpl. lia.
Qed.

Lemma wp_even_sized edges l (Fh Fw : nat) s Q :
  Q (inr (bool_decide (Fh `mod` 2 = 0)%nat
          || bool_decide (Fw `mod` 2 = 0)%nat)) s ->
  wp (even_sized edges (NDArray l [Fh; Fw] C_order)) s Q.
Proof.
  intros HQ. unfold even_sized. rewrite edges_guard_true.
  apply wp_bind. eapply wp_shape_at; [done|].
  rewrite even_of_nat. destruct (bool_decide (Fh `mod` 2 = 0)%nat).
  - by apply wp_ret.
  - apply wp_bind. eapply wp_shape_at; [done|]. apply wp_ret.
    by rewrite even_of_nat.
Qed.

Lemma wp_pad_col l (Fh : nat) s Q :
  (forall l', l' ∉ dom (store s) ->
     Q (inr (NDArray l' [S Fh; 1%nat] C_order))
       (State (<[l' := default [] (store s !! l) ++ [0%float]]> (store s))
              (calls s))) ->
  wp (pad_even (NDArray l [Fh; 1%nat] C_order)) s Q.
Proof.
  intros HQ. unfold pad_even.
  apply wp_bind. eapply wp_shape_at; [done|].
  rewrite bool_decide_eq_true_2 by done.
  apply wp_bind, wp_append. intros l' Hl'. wp_simpl.
  apply wp_bind. eapply wp_len; [done|].
  eapply wp_reshape; [done| |].
  - apply (resolve_shape_2d _ _ 1). unfold ndarray_size. simpl. lia.
  - replace (S (ndarray_size (NDArray l [Fh; 1%nat] C_order))) with (S Fh)
      by (unfold ndarray_size; simpl; lia).
    by apply HQ.
Qed.

Lemma wp_pad_row l (Fw : nat) s Q :
  Fw ≠ 1%nat ->
  (forall l', l' ∉ dom (store s) ->
     Q (inr (NDArray l' [1%nat; S Fw] C_order))
       (State (<[l' := default [] (store s !! l) ++ [0%float]]> (store s))
              (calls s))) ->
  wp (pad_even (NDArray l [1%nat; Fw] C_order)) s Q.
Proof.
  intros Hne HQ. unfold pad_even.
  apply wp_bind. eapply wp_shape_at; [done|].
  rewrite bool_decide_eq_false_2 by lia.
  apply wp_bind. eapply wp_shape_at; [done|].
  rewrite bool_decide_eq_true_2 by done.
  apply wp_bind, wp_append. intros l' Hl'. wp_simpl.
  apply wp_bind. eapply wp_len; [done|].
  eapply wp_reshape; [done| |].
  - apply (resolve_shape_2d _ 1 _). unfold ndarray_size. simpl. lia.
  - replace (S (ndarray_size (NDArray l [1%nat; Fw] C_order))) with (S Fw)
      by (unfold ndarray_size; simpl; lia).
    by apply HQ.
Qed.


(** *** Further rules *)

Lemma wp_mono {A : Type} (m : M A) s (Q Q' : exn + A -> state -> Prop) :
  wp m s Q -> (forall r s', Q r s' -> Q' r s') -> wp m s Q'.
Proof. unfold wp. auto. Qed.

Lemma wp_shape_at_none {A : Type} a i s (Q : exn + A -> state -> Prop)
    (f : Z -> M A) :
  shape a !! i = None -> Q (inl IndexError) s -> wp (shape_at a i ≫= f) s Q.
Proof.
  intros Hi HQ. apply wp_bind. unfold shape_at. rewrite Hi.
  by apply wp_raise.
Qed.


(** An address that is not in use differs from every address in use. *)
Lemma fresh_ne_live (m : heap) l l' :
  l ∉ dom m -> is_Some (m !! l') -> l ≠ l'.
Proof. intros Hl Hl' ->. by apply Hl, elem_of_dom. Qed.

(** Pairwise different addresses make a duplicate-free list. *)
Ltac solve_NoDup :=
  repeat (apply NoDup_cons_2;
          [rewrite ?elem_of_cons, elem_of_nil; intuition congruence|]);
  apply NoDup_nil_2.


(** Two non-negative dimensions whose product is not [n] are refused. *)
Lemma resolve_shape_2d_ne (n : nat) (a b : Z) :
  0 <= a -> 0 <= b -> a * b ≠ Z.of_nat n ->
  resolve_shape n [a; b] = None.
Proof.
  intros Ha Hb Hn. unfold resolve_shape.
  do 2 (rewrite filter_cons_True by lia). rewrite filter_nil.
  cbn [forallb foldr length].
  rewrite (proj2 (Z.leb_le 0 a)), (proj2 (Z.leb_le 0 b)) by done.
  cbn [andb negb]. rewrite bool_decide_eq_true_2 by done.
  rewrite bool_decide_eq_false_2 by lia. done.
Qed.

(** *** Steps that make no library call *)













(** *** The heads of the wrappers *)

(** The choice of [stop] in [corrDn]. *)
Lemma wp_corrDn_stop image stop (H W : nat) st0 st1 s Q :
  shape image = [H; W] ->
  default (Z.of_nat H, Z.of_nat W) stop = (st0, st1) ->
  Q (inr (st0, st1)) s ->
  wp (match stop with
      | None =>
          s0 ← shape_at image 0; s1 ← shape_at image 1; mret (s0, s1)
      | Some stop => mret stop
      end) s Q.
Proof.
  intros Hi Hst HQ. destruct stop as [st|]; simpl in Hst.
  - subst st. by apply wp_ret.
  - simplify_eq.
    apply wp_bind. eapply wp_shape_at; [by rewrite Hi|].
    apply wp_bind. eapply wp_shape_at; [by rewrite Hi|].
    by apply wp_ret.
Qed.

(** The head of [upConv], up to and including the padding, for a filter
    that the padding accepts: it leaves an image copy and the padded filter
    in new buffers, and the caller's buffers as they were. *)
Lemma wp_upConv_head {A : Type} image filt edges (Fh Fw Ph Pw : nat) s
    (K : ndarray -> ndarray -> M A) Q :
  shape filt = [Fh; Fw] \/ (Fh = 1%nat /\ shape filt = [Fw]) ->
  padded_shape Fh Fw = Some [Ph; Pw] ->
  (forall li lf s1,
     calls s1 = calls s ->
     (forall l, l ∈ dom (store s) -> store s1 !! l = store s !! l) ->
     li ∉ dom (store s) -> lf ∉ dom (store s) -> li ≠ lf ->
     store s1 !! li
     = Some (ravel image (default [] (store s !! base image))) ->
     is_Some (store s1 !! lf) ->
     (forall df, store s !! base filt = Some df ->
                 store s1 !! lf = Some (padded_data Fh Fw (ravel filt df))) ->
     wp (K (NDArray li (shape image) C_order) (NDArray lf [Ph; Pw] C_order))
        s1 Q) ->
  wp (image ← ndarray_copy image;
      filt ← ndarray_copy filt;
      filt ← (if bool_decide (length (shape filt) = 1%nat)
              then n ← len filt; np_reshape filt [1; n]
              else mret filt);
      even ← even_sized edges filt;
      filt ← (if even : bool then pad_even filt else mret filt);
      K image filt) s Q.
Proof.
  intros Hf Hp HK.
  apply wp_bind, wp_copy. intros li Hli. wp_simpl.
  assert (forall df, store s !! base filt = Some df -> li ≠ base filt)
    as Hne by (intros df Hdf ->; apply Hli, elem_of_dom; eauto).
  apply wp_bind, wp_copy. intros lf Hlf. wp_simpl.
  apply wp_bind. apply (wp_filt_2d _ _ Fh Fw); [done|].
  apply wp_bind, wp_even_sized.
  unfold padded_shape, padded_data in *.
  destruct (bool_decide (Fh `mod` 2 = 0)%nat
            || bool_decide (Fw `mod` 2 = 0)%nat).
  - case_bool_decide; [|case_bool_decide]; simplify_eq.
    + apply wp_bind, wp_pad_col. intros lp Hlp. wp_simpl. fresh_ne.
      apply HK; cbn [store calls]; try done.
      * intros l Hl. rewrite !lookup_insert_ne; [done|by intros <-..].
      * by simplify_map_eq.
      * by simplify_map_eq.
      * intros df Hdf. specialize (Hne df Hdf). by simplify_map_eq.
    + apply wp_bind, wp_pad_row; [done|]. intros lp Hlp. wp_simpl. fresh_ne.
      apply HK; cbn [store calls]; try done.
      * intros l Hl. rewrite !lookup_insert_ne; [done|by intros <-..].
      * by simplify_map_eq.
      * by simplify_map_eq.
      * intros df Hdf. specialize (Hne df Hdf). by simplify_map_eq.
  - simplify_eq. apply wp_bind, wp_ret. fresh_ne.
    apply HK; cbn [store calls]; try done.
    + intros l Hl. rewrite !lookup_insert_ne; [done|by intros <-..].
    + by simplify_map_eq.
    + by simplify_map_eq.
    + intros df Hdf. specialize (Hne df Hdf). by simplify_map_eq.
Qed.

(** *** Whole runs *)


(** [upConv] without a result buffer, for a filter that the padding accepts
    and a non-negative output extent [(st0, st1)], the given [stop] or else
    [step * extent] of the 2-d image. *)
Lemma upConv_runs_window lib image filt edges step start stop s
    (H W Fh Fw Ph Pw : nat) st0 st1 :
  shape filt = [Fh; Fw] \/ (Fh = 1%nat /\ shape filt = [Fw]) ->
  padded_shape Fh Fw = Some [Ph; Pw] ->
  match stop with
  | Some st => st = (st0, st1)
  | None => shape image = [H; W] /\
            (st0, st1) = (Z.of_nat H * step.1, Z.of_nat W * step.2)
  end ->
  0 <= st0 -> 0 <= st1 ->
  Forall c_long [Z.of_nat Ph; Z.of_nat Pw; start.1; start.2;
                 step.1; step.2; st0; st1] ->
  nul_free edges = true ->
  exists a s',
    upConv lib image filt edges step start stop None s = (inr a, s') /\
    exists k h,
      calls s' = calls s ++ [(k, h)] /\
      store s' = (lib k h).2 /\
      a = NDArray (result_ptr k) [Z.to_nat st0; Z.to_nat st1]
            (if String.eqb edges "circular" then F_order else C_order) /\
      x_window k = Some (start.2, step.2, st1) /\
      y_window k = Some (start.1, step.1, st0) /\
      result_dims k = Some (st1, st0) /\
      filt_dims k = Some (Z.of_nat Pw, Z.of_nat Ph) /\
      NoDup (pointers k) /\
      (result_ptr k ∉ dom (store s)) /\
      h !! result_ptr k
      = Some (replicate (Z.to_nat st1 * Z.to_nat st0) 0%float) /\
      h !! image_ptr k
      = Some (ravel image (default [] (store s !! base image))) /\
      (forall df, store s !! base filt = Some df ->
                  filt_seen (k, h)
                  = Some (padded_data Fh Fw (ravel filt df))) /\
      (forall t, temp_ptr k = Some t ->
                 h !! t = Some (replicate (Pw * Ph) 0%float)) /\
      stop_args k = Some (st1, st0).
Proof.
  intros Hf Hp Hext Hst0 Hst1 Hints Hnul.
  apply wp_returns. unfold upConv.
  apply (wp_upConv_head image filt edges Fh Fw Ph Pw); [done..|].
  intros li lf s1 Hc Hold Hli Hlf Hne Hi1 Hf1 Hfd.
  apply wp_bind.
  assert (wp (match stop with
              | Some stop0 => mret stop0
              | None =>
                  s0 ← shape_at (NDArray li (shape image) C_order) 0;
                  s1 ← shape_at (NDArray li (shape image) C_order) 1;
                  mret (s0 * step.1, s1 * step.2)
              end) s1
            (fun r s' => r = inr (st0, st1) /\ s' = s1)) as Hstop.
  { destruct stop as [st|].
    - subst st. by apply wp_ret.
    - destruct Hext as [Hi Heq]. simplify_eq.
      apply wp_bind. eapply wp_shape_at; [by rewrite Hi|].
      apply wp_bind. eapply wp_shape_at; [by rewrite Hi|].
      by apply wp_ret. }
  eapply wp_mono; [exact Hstop|]. clear Hstop.
  intros r s' [-> ->]. cbn [fst snd].
  apply wp_bind, wp_zeros; [repeat constructor; lia|].
  intros lr Hlr. wp_simpl.
  pose proof (fresh_ne_live _ _ _ Hlr (mk_is_Some _ _ Hi1)) as Hri.
  pose proof (fresh_ne_live _ _ _ Hlr Hf1) as Hrf.
  assert (lr ∉ dom (store s)) as Hrs.
  { intros Hin. apply Hlr, elem_of_dom. rewrite Hold by done.
    by apply elem_of_dom. }
  do 2 (apply wp_bind; eapply wp_shape_at; [done|]).
  apply wp_bind, wp_zeros; [repeat constructor; lia|].
  intros lt Hlt. wp_simpl. cbn [store] in Hlt.
  rewrite dom_insert_L in Hlt.
  apply not_elem_of_union in Hlt as [Htr%not_elem_of_singleton Hlt].
  pose proof (fresh_ne_live _ _ _ Hlt (mk_is_Some _ _ Hi1)) as Hti.
  pose proof (fresh_ne_live _ _ _ Hlt Hf1) as Htf.
  destruct (String.eqb edges "circular");
    do 2 (apply wp_bind; eapply wp_shape_at; [done|]);
    apply wp_bind; (apply wp_call; [solve_converts|]); wp_simpl;
    [ apply wp_ret
    | eapply wp_reshape;
      [ done
      | apply resolve_shape_2d_Z;
        [lia | lia | unfold ndarray_size; simpl; lia]
      | ] ];
    (eexists; split; [done|]); wp_simpl;
    eexists _, _; (split; [by rewrite Hc|]); (split; [done|]).
  all: cbn [result_ptr image_ptr x_window y_window result_dims filt_dims
            pointers filt_seen filt_ptr fst snd mbind option_bind
            fmap list_fmap foldr].
  all: rewrite ?Nat.mul_1_r.
  all: repeat (split; [first [done | solve_NoDup]|]).
  all: split; [by rewrite lookup_insert_ne, lookup_insert_eq by done|].
  all: split; [by do 2 (rewrite lookup_insert_ne by done)|].
  all: split;
    [intros df Hdf; do 2 (rewrite lookup_insert_ne by done); by apply Hfd|].
  all: split; [|done].
  all: cbn [temp_ptr]; intros t [= <-].
  by rewrite lookup_insert_eq, !Nat2Z.id.
Qed.

(** [upConv] with a supplied result buffer, for a filter that the padding
    accepts and a non-negative output extent [(st0, st1)], the given [stop]
    or else the shape of the 2-d buffer, with arguments that ctypes
    converts: one library call, on a new buffer that holds a copy of the
    supplied one.  The circular path returns the transpose of that copy; the
    generic path reshapes it to the extent, and raises [ValueError] after
    the call when the sizes do not agree. *)
Lemma upConv_runs_result lib image filt edges step start stop result s
    (Fh Fw Ph Pw R0 R1 : nat) st0 st1 d :
  shape filt = [Fh; Fw] \/ (Fh = 1%nat /\ shape filt = [Fw]) ->
  padded_shape Fh Fw = Some [Ph; Pw] ->
  store s !! base result = Some d ->
  match stop with
  | Some st => st = (st0, st1)
  | None => shape result = [R0; R1] /\
            (st0, st1) = (Z.of_nat R0, Z.of_nat R1)
  end ->
  0 <= st0 -> 0 <= st1 ->
  Forall c_long [Z.of_nat Ph; Z.of_nat Pw; start.1; start.2;
                 step.1; step.2; st0; st1] ->
  nul_free edges = true ->
  exists r s' k h,
    upConv lib image filt edges step start stop (Some result) s = (r, s') /\
    calls s' = calls s ++ [(k, h)] /\
    x_window k = Some (start.2, step.2, st1) /\
    y_window k = Some (start.1, step.1, st0) /\
    stop_args k = Some (st1, st0) /\
    result_dims k = Some (st1, st0) /\
    filt_dims k = Some (Z.of_nat Pw, Z.of_nat Ph) /\
    (result_ptr k ∉ dom (store s)) /\
    h !! result_ptr k = Some (ravel result d) /\
    r = if String.eqb edges "circular"
        then inr (NDArray (result_ptr k) (rev (shape result)) F_order)
        else if bool_decide (st0 * st1 = Z.of_nat (ndarray_size result))
             then inr (NDArray (result_ptr k) [Z.to_nat st0; Z.to_nat st1]
                         C_order)
             else inl ValueError.
Proof.
  intros Hf Hp Hd Hext Hst0 Hst1 Hints Hnul.
  cut (wp (upConv lib image filt edges step start stop (Some result)) s
         (fun r s' => exists k h,
            calls s' = calls s ++ [(k, h)] /\
            x_window k = Some (start.2, step.2, st1) /\
            y_window k = Some (start.1, step.1, st0) /\
            stop_args k = Some (st1, st0) /\
            result_dims k = Some (st1, st0) /\
            filt_dims k = Some (Z.of_nat Pw, Z.of_nat Ph) /\
            (result_ptr k ∉ dom (store s)) /\
            h !! result_ptr k = Some (ravel result d) /\
            r = if String.eqb edges "circular"
                then inr (NDArray (result_ptr k) (rev (shape result))
                            F_order)
                else if bool_decide
                          (st0 * st1 = Z.of_nat (ndarray_size result))
                     then inr (NDArray (result_ptr k)
                                 [Z.to_nat st0; Z.to_nat st1] C_order)
                     else inl ValueError)).
  { intros (r & s' & Hrun & k & h & HQ)%wp_run. by exists r, s', k, h. }
  unfold upConv.
  apply (wp_upConv_head image filt edges Fh Fw Ph Pw); [done..|].
  intros li lf s1 Hc Hold Hli Hlf Hne Hi1 Hf1 Hfd.
  assert (store s1 !! base result = Some d) as Hres.
  { rewrite Hold; [done|]. apply elem_of_dom. eauto. }
  apply wp_bind.
  assert (wp (match stop with
              | Some stop0 => mret stop0
              | None =>
                  r0 ← shape_at result 0; r1 ← shape_at result 1;
                  mret (r0, r1)
              end) s1
            (fun r s' => r = inr (st0, st1) /\ s' = s1)) as Hstop.
  { destruct stop as [st|].
    - subst st. by apply wp_ret.
    - destruct Hext as [Hr Heq]. simplify_eq.
      apply wp_bind. eapply wp_shape_at; [by rewrite Hr|].
      apply wp_bind. eapply wp_shape_at; [by rewrite Hr|].
      by apply wp_ret. }
  eapply wp_mono; [exact Hstop|]. clear Hstop.
  intros r s' [-> ->]. cbn [fst snd].
  apply wp_bind, wp_bind, wp_copy. intros lc Hlc. wp_simpl.
  apply wp_np_array. intros lr Hlr. wp_simpl.
  do 2 (apply wp_bind; eapply wp_shape_at; [done|]).
  apply wp_bind, wp_zeros; [repeat constructor; lia|].
  intros lt Hlt. wp_simpl.
  rewrite Hres. fresh_ne. rewrite lookup_insert_eq.
  change (default [] (Some ?x)) with x.
  assert (lr ∉ dom (store s)) as Hrs.
  { intros Hin.
    match goal with H : lr ∉ dom (store s1) |- _ => apply H end.
    apply elem_of_dom. rewrite Hold by done. by apply elem_of_dom. }
  destruct (String.eqb edges "circular");
    do 2 (apply wp_bind; eapply wp_shape_at; [done|]);
    apply wp_bind; (apply wp_call; [solve_converts|]); wp_simpl.
  - apply wp_ret. eexists _, _. split; [by rewrite Hc|].
    cbn [x_window y_window stop_args result_dims filt_dims result_ptr].
    repeat (split; [done|]).
    split; [|done].
    by rewrite lookup_insert_ne, lookup_insert_eq by done.
  - unfold np_reshape. cbn [c_contiguous order base].
    case_bool_decide as Hsz.
    + rewrite (resolve_shape_2d_Z _ st0 st1) by
        (try done; unfold ndarray_size in *; cbn [shape] in *; lia).
      apply wp_ret. eexists _, _. split; [by rewrite Hc|].
      cbn [x_window y_window stop_args result_dims filt_dims result_ptr].
      repeat (split; [done|]).
      split; [|done].
      by rewrite lookup_insert_ne, lookup_insert_eq by done.
    + rewrite resolve_shape_2d_ne by done.
      apply wp_raise. eexists _, _. split; [by rewrite Hc|].
      cbn [x_window y_window stop_args result_dims filt_dims result_ptr].
      repeat (split; [done|]).
      split; [|done].
      by rewrite lookup_insert_ne, lookup_insert_eq by done.
Qed.


(** [pointOp] on an image with at least two axes and a table with at least
    one, with arguments that ctypes converts: one library call, on the
    caller's store extended by a zero-filled result buffer, and a returned
    grid in a further new buffer that holds what the library left in the
    first. *)
Lemma pointOp_runs lib image lut origin increment warnings s (H W n : nat)
    more rest :
  shape image = H :: W :: more ->
  shape lut = n :: rest ->
  Forall c_long [Z.of_nat H * Z.of_nat W; Z.of_nat n; warnings] ->
  exists a s' pr h,
    pointOp lib image lut origin increment warnings s = (inr a, s') /\
    calls s' = calls s ++
      [(internal_pointop (base image) pr (Z.of_nat H * Z.of_nat W)
          (base lut) (Z.of_nat n) origin increment warnings, h)] /\
    (pr ∉ dom (store s)) /\
    h = <[pr := replicate (H * W) 0%float]> (store s) /\
    a = NDArray (base a) [H; W] C_order /\
    (base a ∉ dom (lib (internal_pointop (base image) pr
                          (Z.of_nat H * Z.of_nat W) (base lut) (Z.of_nat n)
                          origin increment warnings) h).2) /\
    store s'
    = <[base a :=
          default [] ((lib (internal_pointop (base image) pr
                              (Z.of_nat H * Z.of_nat W) (base lut)
                              (Z.of_nat n) origin increment warnings) h).2
                      !! pr)]>
        (lib (internal_pointop (base image) pr (Z.of_nat H * Z.of_nat W)
                (base lut) (Z.of_nat n) origin increment warnings) h).2.
Proof.
  intros Hi Hl Hints.
  cut (wp (pointOp lib image lut origin increment warnings) s
         (fun r s' => exists a pr h,
            r = inr a /\
            calls s' = calls s ++
              [(internal_pointop (base image) pr (Z.of_nat H * Z.of_nat W)
                  (base lut) (Z.of_nat n) origin increment warnings, h)] /\
            (pr ∉ dom (store s)) /\
            h = <[pr := replicate (H * W) 0%float]> (store s) /\
            a = NDArray (base a) [H; W] C_order /\
            (base a ∉ dom (lib (internal_pointop (base image) pr
                                  (Z.of_nat H * Z.of_nat W) (base lut)
                                  (Z.of_nat n) origin increment warnings)
                             h).2) /\
            store s'
            = <[base a :=
                  default []
                    ((lib (internal_pointop (base image) pr
                             (Z.of_nat H * Z.of_nat W) (base lut)
                             (Z.of_nat n) origin increment warnings) h).2
                     !! pr)]>
                (lib (internal_pointop (base image) pr
                        (Z.of_nat H * Z.of_nat W) (base lut) (Z.of_nat n)
                        origin increment warnings) h).2)).
  { intros (r & s' & Hrun & a & pr & h & -> & HQ)%wp_run.
    by exists a, s', pr, h. }
  unfold pointOp.
  do 2 (apply wp_bind; eapply wp_shape_at; [by rewrite Hi|]).
  apply wp_bind, wp_zeros; [repeat constructor; lia|]. intros lr Hlr.
  wp_simpl.
  do 2 (apply wp_bind; eapply wp_shape_at; [by rewrite Hi|]).
  apply wp_bind; eapply wp_shape_at; [by rewrite Hl|].
  apply wp_bind, wp_call; [solve_converts|]. wp_simpl.
  apply wp_np_array. intros la Hla. wp_simpl.
  cbn [fmap list_fmap foldr store data_as] in *. rewrite !Nat2Z.id in *.
  rewrite Nat.mul_1_r in *.
  by exists (NDArray la [H; W] C_order), lr,
       (<[lr := replicate (H * W) 0%float]> (store s)).
Qed.


(** The conversion at work, with the stand-in library: a start component
    of 2^64 in [corrDn], a mode with an embedded NUL on the generic path of
    [upConv] and a [warnings] of 2^64 in [pointOp] end the run in
    [ArgumentError], without a library call. *)
Example ctypes_refuses :
  (corrDn lib_incr image_2x3 filt_1x2 "zero" (1, 1) (2 ^ 64, 0) None None
     mem0).1 = inl ArgumentError
  /\ calls (corrDn lib_incr image_2x3 filt_1x2 "zero" (1, 1) (2 ^ 64, 0)
              None None mem0).2 = []
  /\ (upConv lib_incr image_2x3 filt_1x2 (String Ascii.zero "zero") (1, 1)
        (0, 0) None None mem0).1 = inl ArgumentError
  /\ calls (upConv lib_incr image_2x3 filt_1x2 (String Ascii.zero "zero")
              (1, 1) (0, 0) None None mem0).2 = []
  /\ (pointOp lib_incr image_2x3 lut_1x2 0%float 1%float (2 ^ 64) mem0).1
     = inl ArgumentError
  /\ calls (pointOp lib_incr image_2x3 lut_1x2 0%float 1%float (2 ^ 64)
              mem0).2 = [].
Proof. repeat split; vm_compute; reflexivity. Qed.

(** *** The stand-in library has the assumed footprint *)

Lemma alter_all_lookup_ne (f : buffer -> buffer) (ps : list loc) (h : heap) l :
  l ∉ ps -> foldr (alter f) h ps !! l = h !! l.
Proof.
  induction ps as [|p ps IH]; [done|].
  intros [Hp Hps]%not_elem_of_cons. simpl.
  rewrite lookup_alter_ne by done. by apply IH.
Qed.

Lemma alter_all_length (ps : list loc) (h : heap) l :
  length <$> foldr (alter (fmap (PrimFloat.add 1))) h ps !! l
  = length <$> h !! l.
Proof.
  induction ps as [|p ps IH]; [done|]. simpl.
  destruct (decide (p = l)) as [-> | Hne].
  - rewrite lookup_alter_eq, <- IH.
    destruct (foldr _ h ps !! l); simpl; [|done].
    by rewrite length_fmap.
  - by rewrite lookup_alter_ne.
Qed.

Lemma lib_incr_footprint : footprint lib_incr.
Proof.
  intros k h l. split.
  - apply alter_all_lookup_ne.
  - apply alter_all_length.
Qed.

(** *** What a run keeps of the caller's store *)

Section Frame.

Variable lib : kernel_call -> heap -> Z * heap.
Hypothesis lib_footprint : footprint lib.
Variable s0 : state.

Lemma kept_refl : kept s0 s0.
Proof. split; [done|]. exists []. by rewrite app_nil_r. Qed.

Lemma kept_dom s l : kept s0 s -> l ∈ dom (store s0) -> l ∈ dom (store s).
Proof.
  intros [Hk _] Hl. apply elem_of_dom. rewrite (Hk l Hl).
  by apply elem_of_dom.
Qed.

Lemma post_ret {A : Type} (x : A) (P : A -> Prop) :
  P x -> post s0 (mret x) P.
Proof. intros HP s Hs. split; [done|]. by intros ? [= <-]. Qed.

Lemma post_raise {A : Type} e (P : A -> Prop) : post s0 (raise e) P.
Proof. intros s Hs. split; [done|]. by intros ? [=]. Qed.

Lemma post_bind {A B : Type} (m : M A) (f : A -> M B) P Q :
  post s0 m P -> (forall x, P x -> post s0 (f x) Q) -> post s0 (m ≫= f) Q.
Proof.
  intros Hm Hf s Hs. destruct (Hm s Hs) as [Hk HP].
  unfold mbind, M_bind. destruct (m s) as [[e | x] s']; simpl in *.
  - split; [done|]. by intros ? [=].
  - by apply Hf; [apply HP|].
Qed.

Lemma post_alloc b : post s0 (alloc b) (fun l => l ∉ dom (store s0)).
Proof.
  intros s Hs. unfold alloc. cbn [fst snd].
  assert (fresh (dom (store s)) ∉ dom (store s0)) as Hnew.
  { intros Hin. by apply (is_fresh (dom (store s))), kept_dom. }
  split.
  - destruct Hs as [Hk Hc]. split; [|done]. cbn [store]. intros l Hl.
    rewrite lookup_insert_ne; [by apply Hk|]. by intros <-.
  - by intros ? [= <-].
Qed.

Lemma post_deref a : post s0 (deref a) (fun _ => True).
Proof. intros s Hs. done. Qed.

Lemma post_copy a : post s0 (ndarray_copy a) (is_new s0).
Proof.
  unfold ndarray_copy.
  eapply post_bind; [apply post_deref|]. intros b _.
  eapply post_bind; [apply post_alloc|]. intros l Hl.
  by apply post_ret.
Qed.

Lemma post_np_array a : post s0 (np_array a) (is_new s0).
Proof.
  unfold np_array.
  eapply post_bind; [apply post_deref|]. intros b _.
  eapply post_bind; [apply post_alloc|]. intros l Hl.
  by apply post_ret.
Qed.

Lemma post_append a v : post s0 (np_append a v) (is_new s0).
Proof.
  unfold np_append.
  eapply post_bind; [apply post_deref|]. intros b _.
  eapply post_bind; [apply post_alloc|]. intros l Hl.
  by apply post_ret.
Qed.

Lemma post_zeros dims : post s0 (np_zeros dims) (is_new s0).
Proof.
  unfold np_zeros. case_match; [|apply post_raise].
  eapply post_bind; [apply post_alloc|]. intros l Hl.
  by apply post_ret.
Qed.

Lemma post_reshape a newshape :
  is_new s0 a -> post s0 (np_reshape a newshape) (is_new s0).
Proof.
  intros Ha. unfold np_reshape. case_match; [|apply post_raise].
  case_match; [by apply post_ret|].
  eapply post_bind; [apply post_copy|]. intros a' Ha'.
  by apply post_ret.
Qed.

Lemma post_shape_at a i : post s0 (shape_at a i) (fun _ => True).
Proof.
  unfold shape_at. case_match; [by apply post_ret | apply post_raise].
Qed.

Lemma post_len a : post s0 (len a) (fun _ => True).
Proof. unfold len. case_match; [apply post_raise | by apply post_ret]. Qed.

Lemma post_range_len start stop step :
  post s0 (range_len start stop step) (fun _ => True).
Proof.
  unfold range_len. case_match; [apply post_raise | by apply post_ret].
Qed.

(** A library call that is given only new buffers leaves the old ones. *)
Lemma post_call k :
  Forall (fun p => p ∉ dom (store s0)) (pointers k) ->
  post s0 (call_lib lib k) (fun _ => True).
Proof.
  intros Hk s [Hs (new & Hc & Hnew)]. split; [|done].
  unfold call_lib. destruct (converts k); [|by split; eauto].
  cbn [fst snd]. split; cbn [store calls].
  - intros l Hl. rewrite <- (Hs l Hl). apply lib_footprint.
    intros Hin. rewrite Forall_forall in Hk. by apply (Hk l).
  - exists (new ++ [(k, store s)]). rewrite Hc, app_assoc. split; [done|].
    apply Forall_app. split; [done|]. by repeat constructor.
Qed.

Lemma post_filt_2d (filt : ndarray) :
  is_new s0 filt ->
  post s0 (if bool_decide (length (shape filt) = 1%nat)
           then n ← len filt; np_reshape filt [1; n]
           else mret filt) (is_new s0).
Proof.
  intros Hf. case_bool_decide; [|by apply post_ret].
  eapply post_bind; [apply post_len|]. intros n _. by apply post_reshape.
Qed.

Lemma post_even_sized edges filt :
  post s0 (even_sized edges filt) (fun _ => True).
Proof.
  unfold even_sized. case_match; [|by apply post_ret].
  eapply post_bind; [apply post_shape_at|]. intros f0 _.
  case_match; [by apply post_ret|].
  eapply post_bind; [apply post_shape_at|]. intros f1 _. by apply post_ret.
Qed.

Lemma post_pad_even filt : post s0 (pad_even filt) (is_new s0).
Proof.
  unfold pad_even.
  eapply post_bind; [apply post_shape_at|]. intros f1 _.
  case_match.
  - eapply post_bind; [apply post_append|]. intros a Ha.
    eapply post_bind; [apply post_len|]. intros n _. by apply post_reshape.
  - eapply post_bind; [apply post_shape_at|]. intros f0 _.
    case_match; [|apply post_raise].
    eapply post_bind; [apply post_append|]. intros a Ha.
    eapply post_bind; [apply post_len|]. intros n _. by apply post_reshape.
Qed.

Ltac post_step :=
  first
    [ apply post_copy | apply post_np_array | apply post_zeros
    | apply post_shape_at | apply post_len | apply post_range_len
    | apply post_even_sized | apply post_pad_even
    | by apply post_filt_2d | by apply post_reshape
    | by apply post_ret | apply post_raise
    | by apply post_call; repeat constructor ].

Ltac post_go :=
  repeat first
    [ post_step
    | eapply post_bind; [post_step | intros ? ?]
    | case_match ].

Lemma post_corrDn image filt edges step start stop result :
  post s0 (corrDn lib image filt edges step start stop result) (is_new s0).
Proof.
  unfold corrDn.
  eapply post_bind; [apply post_copy|]. intros image' Hi.
  eapply post_bind; [apply post_copy|]. intros filt' Hf.
  eapply post_bind; [by apply post_filt_2d|]. intros filt2 Hf2.
  eapply (post_bind _ _ (fun _ => True)).
  { destruct stop; [by apply post_ret|]. post_go. }
  intros stop' _.
  eapply (post_bind _ _ (is_new s0)).
  { destruct result; post_go. }
  intros result' Hr.
  eapply (post_bind _ _ (fun _ => True)); [|intros; by apply post_ret].
  case_match.
  - post_go.
  - eapply post_bind; [apply post_shape_at|]. intros ? _.
    eapply post_bind; [apply post_shape_at|]. intros ? _.
    eapply post_bind; [apply post_zeros|]. intros tmp Htmp.
    post_go.
Qed.

Lemma post_upConv image filt edges step start stop result :
  post s0 (upConv lib image filt edges step start stop result) (is_new s0).
Proof.
  unfold upConv.
  eapply post_bind; [apply post_copy|]. intros image' Hi.
  eapply post_bind; [apply post_copy|]. intros filt' Hf.
  eapply post_bind; [by apply post_filt_2d|]. intros filt2 Hf2.
  eapply post_bind; [apply post_even_sized|]. intros even _.
  eapply (post_bind _ _ (is_new s0)).
  { destruct even; [apply post_pad_even | by apply post_ret]. }
  intros filt3 Hf3.
  eapply (post_bind _ _ (fun _ => True)).
  { destruct stop; [by apply post_ret|]. destruct result; post_go. }
  intros stop' _.
  eapply (post_bind _ _ (is_new s0)).
  { destruct result; post_go. }
  intros result' Hr.
  eapply post_bind; [apply post_shape_at|]. intros ? _.
  eapply post_bind; [apply post_shape_at|]. intros ? _.
  eapply post_bind; [apply post_zeros|]. intros temp Htemp.
  case_match; post_go.
Qed.

End Frame.

(** *** A 1-d filter is never refused *)














(** *** Corollaries for the default window *)

(** The filter a logged call was given lies behind its filter pointer. *)
Lemma filt_seen_ptr k (h : heap) b :
  filt_seen (k, h) = Some b ->
  exists pf, filt_ptr k = Some pf /\ h !! pf = Some b.
Proof.
  unfold filt_seen. cbn [fst snd].
  destruct (filt_ptr k) as [pf|]; [|done]. intros Hb. by exists pf.
Qed.


(** [upConv] on a 2-d image with a filter that the padding accepts,
    non-negative steps, no [stop] and no [result], with arguments that
    ctypes converts: one library call, which gets the padded filter, and no
    exception. *)
Lemma upConv_runs lib image filt edges step start s (H W Fh Fw Ph Pw : nat)
    data :
  shape image = [H; W] ->
  shape filt = [Fh; Fw] \/ (Fh = 1%nat /\ shape filt = [Fw]) ->
  store s !! base filt = Some data ->
  padded_shape Fh Fw = Some [Ph; Pw] ->
  0 <= step.1 -> 0 <= step.2 ->
  Forall c_long [Z.of_nat Ph; Z.of_nat Pw; start.1; start.2;
                 step.1; step.2;
                 Z.of_nat H * step.1; Z.of_nat W * step.2] ->
  nul_free edges = true ->
  exists a s',
    upConv lib image filt edges step start None None s = (inr a, s') /\
    shape a = [Z.to_nat (Z.of_nat H * step.1);
               Z.to_nat (Z.of_nat W * step.2)] /\
    (base a ∉ dom (store s)) /\
    exists k h pf,
      calls s' = calls s ++ [(k, h)] /\
      filt_ptr k = Some pf /\
      h !! pf = Some (padded_data Fh Fw (ravel filt data)) /\
      filt_dims k = Some (Z.of_nat Pw, Z.of_nat Ph) /\
      stop_args k = Some (Z.of_nat W * step.2, Z.of_nat H * step.1) /\
      result_dims k = Some (Z.of_nat W * step.2, Z.of_nat H * step.1).
Proof.
  intros Hi Hf Hdata Hp Hs1 Hs2 Hints Hnul.
  destruct (upConv_runs_window lib image filt edges step start None s
              H W Fh Fw Ph Pw (Z.of_nat H * step.1) (Z.of_nat W * step.2))
    as (a & s' & Hrun & k & h & Hc & _ & Ha & _ & _ & Hrd & Hfd & _ & Hnew
        & _ & _ & Hfs & _ & Hst); auto; try lia.
  destruct (filt_seen_ptr _ _ _ (Hfs data Hdata)) as (pf & Hpf & Hh).
  exists a, s'. split; [done|]. split; [by rewrite Ha|].
  split; [by rewrite Ha|]. by exists k, h, pf.
Qed.

(** [upConv] with a 2-d result buffer and no [stop], for a filter that the
    padding accepts and arguments that ctypes converts: one library call,
    with the window and the result dimensions taken from the buffer's
    shape, and with a result pointer to a new buffer that holds a copy of
    the supplied one; the generic path returns a grid of the buffer's shape
    over that new buffer, the circular path its transpose. *)
Lemma upConv_runs_buffer lib image filt edges step start result s
    (Fh Fw Ph Pw R0 R1 : nat) d :
  shape filt = [Fh; Fw] \/ (Fh = 1%nat /\ shape filt = [Fw]) ->
  padded_shape Fh Fw = Some [Ph; Pw] ->
  shape result = [R0; R1] ->
  store s !! base result = Some d ->
  Forall c_long [Z.of_nat Ph; Z.of_nat Pw; start.1; start.2;
                 step.1; step.2; Z.of_nat R0; Z.of_nat R1] ->
  nul_free edges = true ->
  exists a s',
    upConv lib image filt edges step start None (Some result) s
    = (inr a, s') /\
    shape a = (if String.eqb edges "circular" then [R1; R0] else [R0; R1]) /\
    (base a ∉ dom (store s)) /\
    exists k h,
      calls s' = calls s ++ [(k, h)] /\
      filt_dims k = Some (Z.of_nat Pw, Z.of_nat Ph) /\
      stop_args k = Some (Z.of_nat R1, Z.of_nat R0) /\
      result_dims k = Some (Z.of_nat R1, Z.of_nat R0) /\
      result_ptr k = base a /\
      h !! base a = Some (ravel result d).
Proof.
  intros Hf Hp Hr Hd Hints Hnul.
  destruct (upConv_runs_result lib image filt edges step start None result s
              Fh Fw Ph Pw R0 R1 (Z.of_nat R0) (Z.of_nat R1) d)
    as (r & s' & k & h & Hrun & Hc & _ & _ & Hst & Hrd & Hfd & Hnew & Hh
        & Hres); auto; try lia.
  assert (exists a, r = inr a /\ base a = result_ptr k /\
                    shape a = if String.eqb edges "circular"
                              then [R1; R0] else [R0; R1])
    as (a & -> & Hb & Hsh).
  { destruct (String.eqb edges "circular").
    - eexists. split; [done|]. split; [done|]. by rewrite Hr.
    - rewrite bool_decide_eq_true_2 in Hres
        by (unfold ndarray_size; rewrite Hr; simpl; lia).
      eexists. split; [done|]. split; [done|]. cbn [shape].
      by rewrite !Nat2Z.id. }
  exists a, s'. split; [done|]. split; [done|]. rewrite Hb.
  split; [done|]. by exists k, h.
Qed.

(** *** The padding of an even-sized 1-d filter *)

(** What the padding makes of an even-sized row or column. *)
Lemma padded_1d (n : nat) :
  (n `mod` 2 = 0)%nat ->
  padded_shape 1 n = Some [1%nat; S n] /\
  padded_shape n 1 = Some [S n; 1%nat] /\
  (forall d, padded_data 1 n d = d ++ [0%float]) /\
  (forall d, padded_data n 1 d = d ++ [0%float]).
Proof.
  intros Hn.
  assert (n ≠ 1%nat) as Hn1 by (intros ->; done).
  assert (bool_decide (n `mod` 2 = 0)%nat = true) as Hb
    by (by apply bool_decide_eq_true).
  unfold padded_shape, padded_data. rewrite Hb, orb_true_r.
  cbn [orb]. rewrite (bool_decide_eq_false_2 (n = 1)%nat) by done.
  by rewrite !bool_decide_eq_true_2 by done.
Qed.

(** The shape of a 1-d filter as the head of the wrappers sees it, with
    what the padding makes of an even-sized one. *)
Lemma shape_1d filt (n : nat) :
  shape filt = [1%nat; n] \/ shape filt = [n] \/ shape filt = [n; 1%nat] ->
  (n `mod` 2 = 0)%nat ->
  exists Fh Fw Ph Pw,
    (shape filt = [Fh; Fw] \/ (Fh = 1%nat /\ shape filt = [Fw])) /\
    padded_shape Fh Fw = Some [Ph; Pw] /\
    (forall d, padded_data Fh Fw d = d ++ [0%float]) /\
    (shape filt = [1%nat; n] \/ shape filt = [n] ->
     Ph = 1%nat /\ Pw = S n) /\
    (shape filt = [n; 1%nat] -> Ph = S n /\ Pw = 1%nat).
Proof.
  intros Hf Hn. destruct (padded_1d n Hn) as (Hrow & Hcol & Hdr & Hdc).
  assert (n ≠ 1%nat) as Hn1 by (intros ->; done).
  destruct Hf as [Hf | [Hf | Hf]].
  - exists 1%nat, n, 1%nat, (S n). rewrite Hf.
    split; [by left|]. split; [done|]. split; [done|].
    split; [done|]. intros [= ? ?]. lia.
  - exists 1%nat, n, 1%nat, (S n). rewrite Hf.
    split; [by right|]. split; [done|]. split; [done|].
    split; [done|]. intros [=].
  - exists n, 1%nat, (S n), 1%nat. rewrite Hf.
    split; [by left|]. split; [done|]. split; [done|].
    split; [|done]. intros [[= ? ?] | [=]]. lia.
Qed.


(** With no result buffer, a non-negative output extent [(st0, st1)], the
    given [stop] or else [step * extent] of the 2-d image, and arguments
    that ctypes converts, the run returns. *)
Lemma upConv_pads_1d lib image filt edges step start stop s (H W n : nat)
    st0 st1 data :
  shape filt = [1%nat; n] \/ shape filt = [n] \/ shape filt = [n; 1%nat] ->
  (n `mod` 2 = 0)%nat ->
  store s !! base filt = Some data ->
  match stop with
  | Some st => st = (st0, st1)
  | None => shape image = [H; W] /\
            (st0, st1) = (Z.of_nat H * step.1, Z.of_nat W * step.2)
  end ->
  0 <= st0 -> 0 <= st1 ->
  Forall c_long [Z.of_nat (S n); start.1; start.2; step.1; step.2;
                 st0; st1] ->
  nul_free edges = true ->
  exists a s' k h pf,
    upConv lib image filt edges step start stop None s = (inr a, s') /\
    calls s' = calls s ++ [(k, h)] /\
    shape a = [Z.to_nat st0; Z.to_nat st1] /\
    filt_ptr k = Some pf /\
    h !! pf = Some (ravel filt data ++ [0%float]) /\
    (shape filt = [1%nat; n] \/ shape filt = [n] ->
     filt_dims k = Some (Z.of_nat (S n), 1)) /\
    (shape filt = [n; 1%nat] ->
     filt_dims k = Some (1, Z.of_nat (S n))).
Proof.
  intros Hf Hn Hdata Hext Hst0 Hst1 Hints Hnul.
  destruct (shape_1d filt n Hf Hn)
    as (Fh & Fw & Ph & Pw & Hf2 & Hp & Hd & Hrow & Hcol).
  destruct (upConv_runs_window lib image filt edges step start stop s
              H W Fh Fw Ph Pw st0 st1)
    as (a & s' & Hrun & k & h & Hc & _ & Ha & _ & _ & _ & Hfd & _ & _
        & _ & _ & Hfs & _); auto.
  { c_long_hyps.
    assert (c_long (Z.of_nat Ph) /\ c_long (Z.of_nat Pw)) as [? ?].
    { destruct Hf as [Hs | [Hs | Hs]].
      - destruct Hrow as [-> ->]; [auto|]. split; [|done].
        unfold c_long. lia.
      - destruct Hrow as [-> ->]; [auto|]. split; [|done].
        unfold c_long. lia.
      - destruct Hcol as [-> ->]; [auto|]. split; [done|].
        unfold c_long. lia. }
    c_long_list. }
  destruct (filt_seen_ptr _ _ _ (Hfs data Hdata)) as (pf & Hpf & Hh).
  exists a, s', k, h, pf. split; [done|]. split; [done|].
  split; [by rewrite Ha|]. split; [done|].
  split; [by rewrite Hh, Hd|]. split.
  - intros Hs. destruct (Hrow Hs) as [-> ->]. done.
  - intros Hs. destruct (Hcol Hs) as [-> ->]. done.
Qed.

(** ** The claims *)




(** C3 (the exempted modes of the padding).  The guard of the padding,
    [edges != "reflect1" or edges != "extend" or edges != "repeat"], holds
    for every mode, so the padding is applied in the three modes it names as
    well: in each of them an even-sized 1-d filter gets one trailing zero,
    and the library call is handed the old elements followed by 0.0, with
    the dimensions increased by one (2-d image, non-negative steps, default
    [stop] and [result], ints that ctypes converts). *)
Theorem upConv_pads_in_exempted_modes lib image filt edges step start s
    (H W n : nat) data :
  edges = "reflect1"%string \/ edges = "extend"%string
  \/ edges = "repeat"%string ->
  shape image = [H; W] ->
  store s !! base filt = Some data ->
  (n `mod` 2 = 0)%nat ->
  0 <= step.1 -> 0 <= step.2 ->
  shape filt = [1%nat; n] \/ shape filt = [n] \/ shape filt = [n; 1%nat] ->
  Forall c_long [Z.of_nat (S n); start.1; start.2; step.1; step.2;
                 Z.of_nat H * step.1; Z.of_nat W * step.2] ->
  exists a s' k h pf,
    upConv lib image filt edges step start None None s = (inr a, s') /\
    calls s' = calls s ++ [(k, h)] /\
    filt_ptr k = Some pf /\
    h !! pf = Some (ravel filt data ++ [0%float]) /\
    (shape filt = [1%nat; n] \/ shape filt = [n] ->
     filt_dims k = Some (Z.of_nat (S n), 1)) /\
    (shape filt = [n; 1%nat] ->
     filt_dims k = Some (1, Z.of_nat (S n))).
Proof.
  intros Hedges Hi Hdata Hn Hs1 Hs2 Hf Hints.
  assert (nul_free edges = true) as Hnul
    by (by destruct Hedges as [-> | [-> | ->]]).
  destruct (upConv_pads_1d lib image filt edges step start None s H W n
              (Z.of_nat H * step.1) (Z.of_nat W * step.2) data)
    as (a & s' & k & h & pf & Hrun & Hc & _ & Hrest); auto; try lia.
  by exists a, s', k, h, pf.
Qed.

(** The theorem in the mode "reflect1", with the 1x2 filter [1, 1] on the
    2x3 image. *)
Lemma upConv_pads_in_exempted_modes_witness :
  exists a s' k h pf,
    upConv lib_incr image_2x3 filt_1x2 "reflect1" (1, 1) (0, 0) None None
      mem0 = (inr a, s') /\
    calls s' = calls mem0 ++ [(k, h)] /\
    filt_ptr k = Some pf /\
    h !! pf = Some (ravel filt_1x2 [1; 1]%float ++ [0%float]) /\
    (shape filt_1x2 = [1%nat; 2%nat] \/ shape filt_1x2 = [2%nat] ->
     filt_dims k = Some (Z.of_nat 3, 1)) /\
    (shape filt_1x2 = [2%nat; 1%nat] ->
     filt_dims k = Some (1, Z.of_nat 3)).
Proof.
  apply (upConv_pads_in_exempted_modes lib_incr image_2x3 filt_1x2 "reflect1"
           (1, 1) (0, 0) mem0 2%nat 3%nat 2%nat [1; 1]%float).
  - left. reflexivity.
  - reflexivity.
  - reflexivity.
  - reflexivity.
  - simpl. lia.
  - simpl. lia.
  - left. reflexivity.
  - repeat apply Forall_cons_2; try apply Forall_nil_2;
      unfold c_long; simpl; lia.
Defined.

(** The same run evaluated: the call carries the filter dimensions 3 x 1
    and the filter elements [1, 1, 0], in the three modes. *)
Example exempted_modes_run :
  Forall (fun edges =>
            let run := upConv lib_incr image_2x3 filt_1x2 edges
                         (1, 1) (0, 0) None None mem0 in
            run.1 = inr (NDArray 9 [2; 3]%nat C_order) /\
            fst <$> calls run.2
            = [internal_expand 6 8 10 3 1 0 1 3 0 1 2 9 3 2 edges] /\
            filt_seen <$> calls run.2 = [Some [1; 1; 0]%float])
    ["reflect1"; "extend"; "repeat"]%string.
Proof. repeat constructor; vm_compute; reflexivity. Qed.

(** C4 (the result buffer of [upConv]).  For a library that writes only
    through the pointers it is given, a filter that the padding accepts and a
    supplied 2-d result buffer (no [stop]), with arguments that ctypes
    converts: the result pointer of the library call is the memory of the
    returned grid, a buffer allocated during the call that holds a copy of
    the supplied buffer's elements when the library is called, and the
    supplied buffer itself holds the same elements after the call as
    before.  The library adds into the copy, not into the caller's array. *)
Theorem upConv_result_buffer_is_copied lib image filt edges step start result
    s (Fh Fw Ph Pw R0 R1 : nat) d :
  footprint lib ->
  shape filt = [Fh; Fw] \/ (Fh = 1%nat /\ shape filt = [Fw]) ->
  padded_shape Fh Fw = Some [Ph; Pw] ->
  shape result = [R0; R1] ->
  store s !! base result = Some d ->
  Forall c_long [Z.of_nat Ph; Z.of_nat Pw; start.1; start.2;
                 step.1; step.2; Z.of_nat R0; Z.of_nat R1] ->
  nul_free edges = true ->
  exists a s' k h,
    upConv lib image filt edges step start None (Some result) s
    = (inr a, s') /\
    calls s' = calls s ++ [(k, h)] /\
    result_ptr k = base a /\
    h !! base a = Some (ravel result d) /\
    base a ≠ base result /\
    store s' !! base result = Some d.
Proof.
  intros Hlib Hf Hp Hr Hd Hints Hnul.
  destruct (upConv_runs_buffer lib image filt edges step start result s
              Fh Fw Ph Pw R0 R1 d)
    as (a & s' & Hrun & _ & Hnew & k & h & Hc & _ & _ & _ & Hrp & Hh); auto.
  assert (base result ∈ dom (store s)) as Hdom by (apply elem_of_dom; eauto).
  exists a, s', k, h. repeat split; try done.
  - by intros Heq; rewrite Heq in Hnew.
  - destruct (post_upConv lib Hlib s image filt edges step start None
                (Some result) s (kept_refl s)) as [[Hk _] _].
    rewrite Hrun in Hk. cbn [snd] in Hk. by rewrite (Hk _ Hdom).
Qed.

(** The theorem at a 2x3 buffer of zeros. *)
Lemma upConv_result_buffer_is_copied_witness :
  exists a s' k h,
    upConv lib_incr image_2x3 filt_1x2 "zero" (1, 1) (0, 0) None
      (Some buffer_2x3) mem0 = (inr a, s') /\
    calls s' = calls mem0 ++ [(k, h)] /\
    result_ptr k = base a /\
    h !! base a = Some (ravel buffer_2x3 [0; 0; 0; 0; 0; 0]%float) /\
    base a ≠ base buffer_2x3 /\
    store s' !! base buffer_2x3 = Some [0; 0; 0; 0; 0; 0]%float.
Proof.
  apply (upConv_result_buffer_is_copied lib_incr image_2x3 filt_1x2 "zero"
           (1, 1) (0, 0) buffer_2x3 mem0 1%nat 2%nat 1%nat 3%nat 2%nat 3%nat
           [0; 0; 0; 0; 0; 0]%float).
  - exact lib_incr_footprint.
  - left. reflexivity.
  - reflexivity.
  - reflexivity.
  - reflexivity.
  - repeat apply Forall_cons_2; try apply Forall_nil_2;
      unfold c_long; simpl; lia.
  - reflexivity.
Defined.

(** The same run evaluated, with the stand-in library that adds 1.0 into
    the memory it is given: the returned grid, at address 10, holds the sums;
    the caller's buffer, at address 3, holds its zeros. *)
Example result_buffer_run :
  (upConv lib_incr image_2x3 filt_1x2 "zero" (1, 1) (0, 0) None
     (Some buffer_2x3) mem0).1
  = inr (NDArray 10 [2; 3]%nat C_order)
  /\ store (upConv lib_incr image_2x3 filt_1x2 "zero" (1, 1) (0, 0) None
              (Some buffer_2x3) mem0).2 !! 10%positive
     = Some [1; 1; 1; 1; 1; 1]%float
  /\ store (upConv lib_incr image_2x3 filt_1x2 "zero" (1, 1) (0, 0) None
              (Some buffer_2x3) mem0).2 !! base buffer_2x3
     = Some [0; 0; 0; 0; 0; 0]%float
  /\ store mem0 !! base buffer_2x3 = Some [0; 0; 0; 0; 0; 0]%float.
Proof. repeat split; vm_compute; reflexivity. Qed.







(** C7, as the claim states it, fails: [pointOp] with a table of one sample
    and an increment of zero returns a 2x3 grid, after calling the library
    with table length 1 and increment 0. *)
Lemma pointOp_one_sample_zero_increment_returns :
  (pointOp lib_incr image_2x3 lut_1 0%float 0%float 0 mem0).1
  = inr (NDArray 7 [2; 3]%nat C_order)
  /\ fst <$> calls (pointOp lib_incr image_2x3 lut_1 0%float 0%float 0 mem0).2
     = [internal_pointop 1 6 6 4 1 0%float 0%float 0].
Proof. repeat split; vm_compute; reflexivity. Qed.

(** C7, amended ([pointOp] validates neither the table nor the increment).
    For every library, every 2-d image [H x W] and every table with at
    least one axis, of first extent [n], that has fewer than 2 samples, or
    with an increment equal to zero, and with the ints passed to the
    library ([H * W], [n] and [warnings]) in the range of a C long or
    unsigned long, so that ctypes converts them: [pointOp] raises no
    exception; it calls the library once, passing the length of the
    table's first axis and the increment as they are, and returns a grid
    of the image's shape. *)
Theorem pointOp_validates_nothing lib image lut origin increment warnings s
    (H W n : nat) rest :
  shape image = [H; W] ->
  shape lut = n :: rest ->
  (ndarray_size lut < 2)%nat \/ PrimFloat.eqb increment 0%float = true ->
  Forall c_long [Z.of_nat H * Z.of_nat W; Z.of_nat n; warnings] ->
  exists a s' pr h,
    pointOp lib image lut origin increment warnings s = (inr a, s') /\
    shape a = [H; W] /\
    calls s' = calls s ++
      [(internal_pointop (base image) pr (Z.of_nat H * Z.of_nat W)
          (base lut) (Z.of_nat n) origin increment warnings, h)].
Proof.
  intros Hi Hl _ Hints.
  destruct (pointOp_runs lib image lut origin increment warnings s H W n
              [] rest)
    as (a & s' & pr & h & Hrun & Hc & _ & _ & Ha & _); auto.
  exists a, s', pr, h. split; [done|]. split; [by rewrite Ha|]. done.
Qed.

(** The theorem at a table of one sample with increment zero. *)
Lemma pointOp_validates_nothing_witness :
  exists a s' pr h,
    pointOp lib_incr image_2x3 lut_1 0%float 0%float 0 mem0 = (inr a, s') /\
    shape a = [2%nat; 3%nat] /\
    calls s' = calls mem0 ++
      [(internal_pointop (base image_2x3) pr (Z.of_nat 2 * Z.of_nat 3)
          (base lut_1) (Z.of_nat 1) 0%float 0%float 0, h)].
Proof.
  apply (pointOp_validates_nothing lib_incr image_2x3 lut_1 0%float 0%float 0
           mem0 2%nat 3%nat 1%nat []).
  - reflexivity.
  - reflexivity.
  - left. vm_compute. lia.
  - repeat apply Forall_cons_2; try apply Forall_nil_2;
      unfold c_long; simpl; lia.
Defined.

(** C8 (output sizing of [upConv]).  For every library, every mode and
    every filter that the padding accepts, with no [stop] and arguments
    that ctypes converts:
    without a result buffer, on a 2-d image [H x W] with non-negative steps,
    the window and the result dimensions passed to the library are
    [step * extent] per axis and the returned grid has that shape;
    with a 2-d result buffer [R0 x R1] they are the buffer's shape, and the
    returned grid has the shape [R0 x R1] on the generic path, but the
    transposed shape [R1 x R0] on the circular path. *)
Theorem upConv_output_shape lib image filt edges step start s
    (Fh Fw Ph Pw : nat) data :
  shape filt = [Fh; Fw] \/ (Fh = 1%nat /\ shape filt = [Fw]) ->
  store s !! base filt = Some data ->
  padded_shape Fh Fw = Some [Ph; Pw] ->
  Forall c_long [Z.of_nat Ph; Z.of_nat Pw; start.1; start.2;
                 step.1; step.2] ->
  nul_free edges = true ->
  (forall H W : nat,
     shape image = [H; W] -> 0 <= step.1 -> 0 <= step.2 ->
     Forall c_long [Z.of_nat H * step.1; Z.of_nat W * step.2] ->
     exists a s' k h,
       upConv lib image filt edges step start None None s = (inr a, s') /\
       calls s' = calls s ++ [(k, h)] /\
       stop_args k = Some (Z.of_nat W * step.2, Z.of_nat H * step.1) /\
       result_dims k = Some (Z.of_nat W * step.2, Z.of_nat H * step.1) /\
       shape a = [Z.to_nat (Z.of_nat H * step.1);
                  Z.to_nat (Z.of_nat W * step.2)])
  /\
  (forall result (R0 R1 : nat) d,
     shape result = [R0; R1] ->
     store s !! base result = Some d ->
     Forall c_long [Z.of_nat R0; Z.of_nat R1] ->
     exists a s' k h,
       upConv lib image filt edges step start None (Some result) s
       = (inr a, s') /\
       calls s' = calls s ++ [(k, h)] /\
       stop_args k = Some (Z.of_nat R1, Z.of_nat R0) /\
       result_dims k = Some (Z.of_nat R1, Z.of_nat R0) /\
       shape a = if String.eqb edges "circular"
                 then [R1; R0] else [R0; R1]).
Proof.
  intros Hf Hdata Hp Hints Hnul. split.
  - intros H W Hi Hs1 Hs2 Hext.
    destruct (upConv_runs lib image filt edges step start s
                H W Fh Fw Ph Pw data)
      as (a & s' & Hrun & Hsh & _ & k & h & pf & Hc & _ & _ & _ & Hst & Hrd);
      auto.
    { c_long_list. }
    by exists a, s', k, h.
  - intros result R0 R1 d Hr Hd Hext.
    destruct (upConv_runs_buffer lib image filt edges step start result s
                Fh Fw Ph Pw R0 R1 d)
      as (a & s' & Hrun & Hsh & _ & k & h & Hc & _ & Hst & Hrd & _);
      eauto.
    { c_long_list. }
    by exists a, s', k, h.
Qed.

(** The theorem on the circular path with a supplied 2x3 buffer: the
    window is [stop = (2, 3)], the returned grid has the shape 3x2. *)
Lemma upConv_output_shape_witness :
  (exists a s' k h,
     upConv lib_incr image_2x3 filt_1x2 "circular" (1, 1) (0, 0) None None
       mem0 = (inr a, s') /\
     calls s' = calls mem0 ++ [(k, h)] /\
     stop_args k = Some (Z.of_nat 3 * 1, Z.of_nat 2 * 1) /\
     result_dims k = Some (Z.of_nat 3 * 1, Z.of_nat 2 * 1) /\
     shape a = [Z.to_nat (Z.of_nat 2 * 1); Z.to_nat (Z.of_nat 3 * 1)])
  /\
  (exists a s' k h,
     upConv lib_incr image_2x3 filt_1x2 "circular" (1, 1) (0, 0) None
       (Some buffer_2x3) mem0 = (inr a, s') /\
     calls s' = calls mem0 ++ [(k, h)] /\
     stop_args k = Some (Z.of_nat 3, Z.of_nat 2) /\
     result_dims k = Some (Z.of_nat 3, Z.of_nat 2) /\
     shape a = [3%nat; 2%nat]).
Proof.
  assert (Forall c_long [Z.of_nat 1; Z.of_nat 3; (0, 0).1; (0, 0).2;
                         (1, 1).1; (1, 1).2]) as Hints.
  { repeat apply Forall_cons_2; try apply Forall_nil_2;
      unfold c_long; simpl; lia. }
  pose proof (upConv_output_shape lib_incr image_2x3 filt_1x2 "circular"
                (1, 1) (0, 0) mem0 1%nat 2%nat 1%nat 3%nat [1; 1]%float
                (or_introl eq_refl) eq_refl eq_refl Hints eq_refl)
    as [Hnone Hbuf].
  split.
  - apply (Hnone 2%nat 3%nat).
    + reflexivity.
    + simpl. lia.
    + simpl. lia.
    + repeat apply Forall_cons_2; try apply Forall_nil_2;
        unfold c_long; simpl; lia.
  - apply (Hbuf buffer_2x3 2%nat 3%nat [0; 0; 0; 0; 0; 0]%float).
    + reflexivity.
    + reflexivity.
    + repeat apply Forall_cons_2; try apply Forall_nil_2;
        unfold c_long; simpl; lia.
Defined.

(** C9 (the wrappers work on copies).  For a library that writes only
    through the pointers it is given, and for every call of [corrDn] or
    [upConv], whether it returns or raises: every buffer of the store at the
    time of the call, in particular the memory of [image], of [filt] and of
    a supplied [result], holds the same elements afterwards; every pointer
    handed to the library points to a buffer allocated during the call; and
    the memory of a returned grid is allocated during the call as well, so
    that the grid shares memory with no argument. *)
Theorem wrappers_work_on_copies lib image filt edges step start stop result
    s :
  footprint lib ->
  (kept s (corrDn lib image filt edges step start stop result s).2 /\
   forall a,
     (corrDn lib image filt edges step start stop result s).1 = inr a ->
     is_new s a)
  /\
  (kept s (upConv lib image filt edges step start stop result s).2 /\
   forall a,
     (upConv lib image filt edges step start stop result s).1 = inr a ->
     is_new s a).
Proof.
  intros Hlib. split.
  - apply (post_corrDn lib Hlib s), kept_refl.
  - apply (post_upConv lib Hlib s), kept_refl.
Qed.

(** The theorem at calls with a supplied result buffer. *)
Lemma wrappers_work_on_copies_witness :
  (kept mem0 (corrDn lib_incr image_2x3 filt_1x2 "zero" (1, 1) (0, 0) None
                (Some buffer_2x3) mem0).2 /\
   forall a,
     (corrDn lib_incr image_2x3 filt_1x2 "zero" (1, 1) (0, 0) None
        (Some buffer_2x3) mem0).1 = inr a ->
     is_new mem0 a)
  /\
  (kept mem0 (upConv lib_incr image_2x3 filt_1x2 "zero" (1, 1) (0, 0) None
                (Some buffer_2x3) mem0).2 /\
   forall a,
     (upConv lib_incr image_2x3 filt_1x2 "zero" (1, 1) (0, 0) None
        (Some buffer_2x3) mem0).1 = inr a ->
     is_new mem0 a).
Proof.
  apply (wrappers_work_on_copies lib_incr image_2x3 filt_1x2 "zero"
           (1, 1) (0, 0) None (Some buffer_2x3) mem0).
  exact lib_incr_footprint.
Defined.

(** A library with the assumed footprint keeps the set of live buffers. *)
Lemma footprint_dom lib k (h : heap) :
  footprint lib -> dom (lib k h).2 = dom h.
Proof.
  intros Hlib. apply set_eq. intros l. rewrite !elem_of_dom.
  destruct (Hlib k h l) as [_ Hlen].
  destruct ((lib k h).2 !! l), (h !! l); simpl in Hlen; try done.
Qed.

(** C10 (the table length [pointOp] reports, and its result).  For a library
    that writes only through the pointers it is given, every 2-d image
    [H x W] and every table with at least one axis, with the ints passed to
    the library ([H * W], the table length and [warnings]) in the range of
    a C long or unsigned long, so that ctypes converts them: [pointOp]
    returns; its single library call passes the caller's image and table
    memory and, as the table length, the length [n] of the table's first
    axis: [N] for a flat table of length [N] and for an [N x 1] column, 1
    for a [1 x N] row.  The returned grid has the shape [H x W], and its
    memory is allocated during the call, apart from the buffer the library
    wrote to. *)
Theorem pointOp_table_length lib image lut origin increment warnings s
    (H W n : nat) rest :
  footprint lib ->
  shape image = [H; W] ->
  shape lut = n :: rest ->
  Forall c_long [Z.of_nat H * Z.of_nat W; Z.of_nat n; warnings] ->
  exists a s' pr h,
    pointOp lib image lut origin increment warnings s = (inr a, s') /\
    calls s' = calls s ++
      [(internal_pointop (base image) pr (Z.of_nat H * Z.of_nat W)
          (base lut) (Z.of_nat n) origin increment warnings, h)] /\
    shape a = [H; W] /\
    is_new s a /\
    base a ≠ pr.
Proof.
  intros Hlib Hi Hl Hints.
  destruct (pointOp_runs lib image lut origin increment warnings s H W n
              [] rest)
    as (a & s' & pr & h & Hrun & Hc & Hpr & Hh & Ha & Hnew & _); auto.
  rewrite footprint_dom in Hnew by done.
  rewrite Hh, dom_insert_L in Hnew.
  apply not_elem_of_union in Hnew as [Hne%not_elem_of_singleton Hnew].
  exists a, s', pr, h. split; [done|]. split; [done|].
  split; [by rewrite Ha|]. done.
Qed.

(** The theorem at a table given as a 1x2 row: the reported length is 1. *)
Lemma pointOp_table_length_witness :
  exists a s' pr h,
    pointOp lib_incr image_2x3 lut_1x2 0%float 1%float 0 mem0 = (inr a, s') /\
    calls s' = calls mem0 ++
      [(internal_pointop (base image_2x3) pr (Z.of_nat 2 * Z.of_nat 3)
          (base lut_1x2) (Z.of_nat 1) 0%float 1%float 0, h)] /\
    shape a = [2%nat; 3%nat] /\
    is_new mem0 a /\
    base a ≠ pr.
Proof.
  apply (pointOp_table_length lib_incr image_2x3 lut_1x2 0%float 1%float 0
           mem0 2%nat 3%nat 1%nat [2%nat]).
  - exact lib_incr_footprint.
  - reflexivity.
  - reflexivity.
  - repeat apply Forall_cons_2; try apply Forall_nil_2;
      unfold c_long; simpl; lia.
Defined.

(** ** Further properties of the wrappers *)

(** *** The window of [corrDn] *)






(** The transposed view is read row by row. *)
Example ravel_transposed :
  ravel image_3x2_T [1; 2; 3; 4; 5; 6]%float = [1; 4; 2; 5; 3; 6]%float.
Proof. reflexivity. Qed.



(** X4 ([corrDn] with a result buffer).  When a result buffer over a live
    buffer is supplied, [corrDn] computes no output size: on a 2-d image
    with a 2-d or flat filter, in every mode without NUL, for every window
    and step, zero steps included, whose ints are, like the extents of
    image and filter, in the range of a C long or unsigned long, and
    whatever the buffer's shape, the library call is made, with a result
    pointer to a new buffer that holds the supplied buffer's elements in
    row-major order; the returned grid is that new buffer, with the
    supplied buffer's shape. *)
Theorem corrDn_result_buffer lib image filt edges step start stop result s
    (H W Fh Fw : nat) st0 st1 d :
  shape image = [H; W] ->
  shape filt = [Fh; Fw] \/ (Fh = 1%nat /\ shape filt = [Fw]) ->
  default (Z.of_nat H, Z.of_nat W) stop = (st0, st1) ->
  store s !! base result = Some d ->
  Forall c_long [Z.of_nat H; Z.of_nat W; Z.of_nat Fh; Z.of_nat Fw;
                 start.1; start.2; step.1; step.2; st0; st1] ->
  nul_free edges = true ->
  exists a s' k h,
    corrDn lib image filt edges step start stop (Some result) s
    = (inr a, s') /\
    calls s' = calls s ++ [(k, h)] /\
    x_window k = Some (start.2, step.2, st1) /\
    y_window k = Some (start.1, step.1, st0) /\
    a = NDArray (result_ptr k) (shape result) C_order /\
    h !! result_ptr k = Some (ravel result d) /\
    (result_ptr k ∉ dom (store s)) /\
    store s' = (lib k h).2.
Proof.
  intros Hi Hf Hst Hd Hints Hnul.
  assert (base result ∈ dom (store s)) as Hdom by (apply elem_of_dom; eauto).
  cut (exists a s',
         corrDn lib image filt edges step start stop (Some result) s
         = (inr a, s') /\
         exists k h,
           calls s' = calls s ++ [(k, h)] /\
           x_window k = Some (start.2, step.2, st1) /\
           y_window k = Some (start.1, step.1, st0) /\
           a = NDArray (result_ptr k) (shape result) C_order /\
           h !! result_ptr k = Some (ravel result d) /\
           (result_ptr k ∉ dom (store s)) /\
           store s' = (lib k h).2).
  { intros (a & s' & Hrun & k & h & Hrest). by exists a, s', k, h. }
  apply wp_returns. unfold corrDn.
  apply wp_bind, wp_copy. intros li Hli. wp_simpl.
  assert (li ≠ base result) as Hne1 by (by intros ->).
  apply wp_bind, wp_copy. intros lf Hlf. wp_simpl.
  assert (lf ≠ base result) as Hne2.
  { intros ->. apply Hlf. cbn [store]. rewrite dom_insert_L.
    by apply elem_of_union_r. }
  apply wp_bind. apply (wp_filt_2d _ _ Fh Fw); [done|].
  apply wp_bind. eapply wp_corrDn_stop; [exact Hi | exact Hst |]. wp_simpl.
  apply wp_bind, wp_bind, wp_copy. intros lc Hlc. wp_simpl.
  apply wp_np_array. intros lr Hlr. wp_simpl.
  apply wp_bind.
  destruct (String.eqb edges "circular").
  - do 4 (apply wp_bind; eapply wp_shape_at; [by rewrite ?Hi|]).
    apply wp_call; [solve_converts|]. wp_simpl. apply wp_ret.
    eexists. split; [done|]. wp_simpl. fresh_ne.
    eexists _, _. repeat split; try done. cbn [result_ptr].
    by simplify_map_eq.
  - do 2 (apply wp_bind; eapply wp_shape_at; [done|]).
    apply wp_bind, wp_zeros; [repeat constructor; lia|].
    intros lt Hlt. wp_simpl.
    do 4 (apply wp_bind; eapply wp_shape_at; [by rewrite ?Hi|]).
    apply wp_call; [solve_converts|]. wp_simpl. apply wp_ret.
    eexists. split; [done|]. wp_simpl. fresh_ne.
    eexists _, _. repeat split; try done. cbn [result_ptr].
    by simplify_map_eq.
Qed.

(** The theorem with the step (0, 0) and the 1x1 table memory as result
    buffer. *)
Lemma corrDn_result_buffer_witness :
  exists a s' k h,
    corrDn lib_incr image_2x3 filt_1x2 "zero" (0, 0) (0, 0) None
      (Some lut_1) mem0 = (inr a, s') /\
    calls s' = calls mem0 ++ [(k, h)] /\
    x_window k = Some (0, 0, Z.of_nat 3) /\
    y_window k = Some (0, 0, Z.of_nat 2) /\
    a = NDArray (result_ptr k) (shape lut_1) C_order /\
    h !! result_ptr k = Some (ravel lut_1 [7]%float) /\
    (result_ptr k ∉ dom (store mem0)) /\
    store s' = (lib_incr k h).2.
Proof.
  apply (corrDn_result_buffer lib_incr image_2x3 filt_1x2 "zero" (0, 0)
           (0, 0) None lut_1 mem0 2%nat 3%nat 1%nat 2%nat).
  - reflexivity.
  - left. reflexivity.
  - reflexivity.
  - reflexivity.
  - repeat apply Forall_cons_2; try apply Forall_nil_2;
      unfold c_long; simpl; lia.
  - reflexivity.
Defined.

(** *** A flat filter is a row *)

Lemma indices_1 (n : nat) : indices [n] = (fun i => [i]) <$> seq 0 n.
Proof.
  cbn [indices]. generalize (seq 0 n). intros l.
  induction l as [|i l IH]; [done|].
  by rewrite bind_cons, IH.
Qed.

Lemma indices_1_n (n : nat) : indices [1%nat; n] = (fun i => [0%nat; i]) <$> seq 0 n.
Proof.
  change (indices [1%nat; n])
    with ([0%nat] ≫= (fun i => cons i <$> indices [n])).
  rewrite bind_cons. change ([] ≫= _) with (@nil (list nat)).
  rewrite app_nil_r, indices_1.
  by rewrite <- list_fmap_compose.
Qed.

(** A flat array and the row over the same memory have the same elements. *)
Lemma ravel_flat_row b (n : nat) o d :
  ravel (NDArray b [n] o) d = ravel (NDArray b [1%nat; n] o) d.
Proof.
  unfold ravel. cbn [order shape]. destruct o; [done|].
  rewrite indices_1, indices_1_n, <- !list_fmap_compose.
  apply list_fmap_ext. intros _ i _. simpl.
  unfold offset. simpl. do 2 f_equal. lia.
Qed.

Lemma bind_ext_r {A B : Type} (m : M A) (f g : A -> M B) s :
  (forall x s', f x s' = g x s') -> (m ≫= f) s = (m ≫= g) s.
Proof.
  intros Hfg. unfold mbind, M_bind. destruct (m s) as [[e | x] s']; auto.
Qed.

(** Copying and promoting a flat filter gives what copying the row gives. *)
Lemma copy_promote_flat {A : Type} b (n : nat) o (K : ndarray -> M A) s :
  (filt ← ndarray_copy (NDArray b [n] o);
   filt ← (if bool_decide (length (shape filt) = 1%nat)
           then n ← len filt; np_reshape filt [1; n]
           else mret filt);
   K filt) s
  = (filt ← ndarray_copy (NDArray b [1%nat; n] o);
     filt ← (if bool_decide (length (shape filt) = 1%nat)
             then n ← len filt; np_reshape filt [1; n]
             else mret filt);
     K filt) s.
Proof.
  unfold ndarray_copy, deref, alloc, mbind, M_bind, mret, M_ret.
  cbn [fst snd store calls base shape order length].
  rewrite ravel_flat_row.
  rewrite bool_decide_eq_true_2 by done.
  rewrite bool_decide_eq_false_2 by done.
  unfold len, np_reshape, mret, M_ret.
  cbn [fst snd store calls base shape order c_contiguous].
  rewrite (resolve_shape_2d _ 1 n) by (unfold ndarray_size; simpl; lia).
  done.
Qed.

(** X5 (a flat filter is a row).  Both [corrDn] and [upConv] treat a filter
    given as a flat array of [n] elements exactly as the [1 x n] row over the
    same memory: for all other arguments and every state, the two calls end
    in the same outcome, the same store and the same library calls. *)
Theorem flat_filter_is_row lib image b (n : nat) o edges step start stop
    result s :
  corrDn lib image (NDArray b [n] o) edges step start stop result s
  = corrDn lib image (NDArray b [1%nat; n] o) edges step start stop result s
  /\
  upConv lib image (NDArray b [n] o) edges step start stop result s
  = upConv lib image (NDArray b [1%nat; n] o) edges step start stop result s.
Proof.
  split.
  - unfold corrDn. apply bind_ext_r. intros image' s1.
    apply copy_promote_flat.
  - unfold upConv. apply bind_ext_r. intros image' s1.
    apply copy_promote_flat.
Qed.

(** *** Rounding up to a multiple of the step *)


(** *** The window of [upConv] *)



(** X7 (a negative output extent in [upConv]).  Without a result buffer and
    with a filter that the padding accepts, an output extent with a negative
    component, be it the given [stop] or [step * extent] of a 2-d image for
    a negative step, makes [upConv] raise [ValueError] (from [np.zeros])
    before any library call. *)
Theorem upConv_negative_extent lib image filt edges step start stop s
    (H W Fh Fw Ph Pw : nat) st0 st1 :
  shape filt = [Fh; Fw] \/ (Fh = 1%nat /\ shape filt = [Fw]) ->
  padded_shape Fh Fw = Some [Ph; Pw] ->
  match stop with
  | Some st => st = (st0, st1)
  | None => shape image = [H; W] /\
            (st0, st1) = (Z.of_nat H * step.1, Z.of_nat W * step.2)
  end ->
  st0 < 0 \/ st1 < 0 ->
  exists s',
    upConv lib image filt edges step start stop None s
    = (inl ValueError, s') /\
    calls s' = calls s.
Proof.
  intros Hf Hp Hext Hneg.
  cut (wp (upConv lib image filt edges step start stop None) s
         (fun r s' => r = inl ValueError /\ calls s' = calls s)).
  { intros (r & s' & Hrun & -> & Hc)%wp_run. eauto. }
  unfold upConv.
  apply (wp_upConv_head image filt edges Fh Fw Ph Pw); [done..|].
  intros li lf s1 Hc _ _ _ _ _ _ _.
  apply wp_bind.
  assert (wp (np_zeros [st1; st0]) s1
            (fun (r : exn + ndarray) s' =>
               r = inl ValueError /\ calls s' = calls s)) as Hz.
  { unfold np_zeros.
    assert (forallb (Z.leb 0) [st1; st0] = false) as ->.
    { cbn [forallb]. destruct Hneg.
      - rewrite (proj2 (Z.leb_gt 0 st0)) by done. apply andb_false_r.
      - by rewrite (proj2 (Z.leb_gt 0 st1)) by done. }
    by apply wp_raise. }
  destruct stop as [st|].
  - subst st. apply wp_ret. cbn [fst snd]. apply wp_bind.
    eapply wp_mono; [exact Hz|]. by intros r s' [-> ?].
  - destruct Hext as [Hi Heq]. simplify_eq.
    apply wp_bind. eapply wp_shape_at; [by rewrite Hi|].
    apply wp_bind. eapply wp_shape_at; [by rewrite Hi|].
    apply wp_ret. cbn [fst snd]. apply wp_bind.
    eapply wp_mono; [exact Hz|]. by intros r s' [-> ?].
Qed.

(** The theorem for the 2x3 image and the step (-1, 1). *)
Lemma upConv_negative_extent_witness :
  exists s',
    upConv lib_incr image_2x3 filt_1x2 "reflect1" (-1, 1) (0, 0) None None
      mem0
    = (inl ValueError, s') /\
    calls s' = calls mem0.
Proof.
  apply (upConv_negative_extent lib_incr image_2x3 filt_1x2 "reflect1"
           (-1, 1) (0, 0) None mem0 2%nat 3%nat 1%nat 2%nat 1%nat 3%nat
           (-2) 3).
  - left. reflexivity.
  - reflexivity.
  - split; reflexivity.
  - left. lia.
Defined.



(** *** [corrDn] and [upConv] one after the other *)





(** *** The memory [pointOp] works on *)

(** X11 (the memory [pointOp] hands over and returns).  For a library that
    writes only through the pointers it is given, an image with at least
    two axes and a table with at least one, with the ints passed to the
    library ([shape[0] * shape[1]], the table length and [warnings]) in the
    range of a C long or unsigned long, so that ctypes converts them:
    [pointOp] makes no copy of its arguments, the library works on the
    caller's store as it is, extended by one new buffer of
    [shape[0] * shape[1]] zeros for the result, and is told that number of
    elements, whatever further axes the image has.  The returned grid is
    row-major of shape [shape[0] x shape[1]], on a second new buffer that
    holds the elements the library left in the first; the rest of the store
    is as the library left it. *)
Theorem pointOp_memory lib image lut origin increment warnings s
    (H W n : nat) more rest :
  footprint lib ->
  shape image = H :: W :: more ->
  shape lut = n :: rest ->
  Forall c_long [Z.of_nat H * Z.of_nat W; Z.of_nat n; warnings] ->
  exists a s' pr h d,
    pointOp lib image lut origin increment warnings s = (inr a, s') /\
    calls s' = calls s ++
      [(internal_pointop (base image) pr (Z.of_nat H * Z.of_nat W)
          (base lut) (Z.of_nat n) origin increment warnings, h)] /\
    (pr ∉ dom (store s)) /\
    h = <[pr := replicate (H * W) 0%float]> (store s) /\
    (lib (internal_pointop (base image) pr (Z.of_nat H * Z.of_nat W)
            (base lut) (Z.of_nat n) origin increment warnings) h).2 !! pr
    = Some d /\
    length d = (H * W)%nat /\
    a = NDArray (base a) [H; W] C_order /\
    (base a ∉ dom (store s)) /\
    base a ≠ pr /\
    store s' !! base a = Some d /\
    (forall l, l ≠ base a ->
       store s' !! l
       = (lib (internal_pointop (base image) pr (Z.of_nat H * Z.of_nat W)
                 (base lut) (Z.of_nat n) origin increment warnings) h).2
         !! l).
Proof.
  intros Hlib Hi Hl Hints.
  destruct (pointOp_runs lib image lut origin increment warnings s H W n
              more rest)
    as (a & s' & pr & h & Hrun & Hc & Hpr & Hh & Ha & Hnew & Hs'); auto.
  set (k := internal_pointop (base image) pr (Z.of_nat H * Z.of_nat W)
              (base lut) (Z.of_nat n) origin increment warnings) in *.
  rewrite footprint_dom in Hnew by done.
  assert (exists d, (lib k h).2 !! pr = Some d /\ length d = (H * W)%nat)
    as (d & Hd & Hlen).
  { destruct (Hlib k h pr) as [_ Hk]. rewrite Hh in Hk at 2.
    rewrite lookup_insert_eq in Hk. cbn [fmap option_fmap option_map] in Hk.
    rewrite length_replicate in Hk.
    destruct ((lib k h).2 !! pr) as [d|]; [|done].
    exists d. split; [done|]. by injection Hk. }
  rewrite Hh, dom_insert_L in Hnew.
  apply not_elem_of_union in Hnew as [Hne%not_elem_of_singleton Hnew].
  exists a, s', pr, h, d.
  split; [done|]. split; [done|]. split; [done|]. split; [done|].
  split; [done|]. split; [done|]. split; [done|]. split; [done|].
  split; [done|]. rewrite Hs', Hd. split.
  - by rewrite lookup_insert_eq.
  - intros l Hl'. by rewrite lookup_insert_ne.
Qed.

(** The theorem for the 2x3 image and the table of two samples. *)
Lemma pointOp_memory_witness :
  exists a s' pr h d,
    pointOp lib_incr image_2x3 filt_2 0%float 1%float 0 mem0 = (inr a, s') /\
    calls s' = calls mem0 ++
      [(internal_pointop (base image_2x3) pr (Z.of_nat 2 * Z.of_nat 3)
          (base filt_2) (Z.of_nat 2) 0%float 1%float 0, h)] /\
    (pr ∉ dom (store mem0)) /\
    h = <[pr := replicate (2 * 3) 0%float]> (store mem0) /\
    (lib_incr (internal_pointop (base image_2x3) pr (Z.of_nat 2 * Z.of_nat 3)
                 (base filt_2) (Z.of_nat 2) 0%float 1%float 0) h).2 !! pr
    = Some d /\
    length d = (2 * 3)%nat /\
    a = NDArray (base a) [2; 3]%nat C_order /\
    (base a ∉ dom (store mem0)) /\
    base a ≠ pr /\
    store s' !! base a = Some d /\
    (forall l, l ≠ base a ->
       store s' !! l
       = (lib_incr (internal_pointop (base image_2x3) pr
                      (Z.of_nat 2 * Z.of_nat 3) (base filt_2) (Z.of_nat 2)
                      0%float 1%float 0) h).2
         !! l).
Proof.
  apply (pointOp_memory lib_incr image_2x3 filt_2 0%float 1%float 0 mem0
           2%nat 3%nat 2%nat [] []).
  - apply lib_incr_footprint.
  - reflexivity.
  - reflexivity.
  - repeat apply Forall_cons_2; try apply Forall_nil_2;
      unfold c_long; simpl; lia.
Defined.

(** *** Arguments with too few axes *)

(** X12 ([pointOp] on arguments with too few axes).  An image with fewer
    than two axes makes [pointOp] raise [IndexError] at once, with the store
    untouched; a table without any axis (a 0-d array) makes it raise
    [IndexError] as well.  In both cases the library is not called. *)
Theorem pointOp_too_few_axes lib image lut origin increment warnings s :
  (length (shape image) < 2)%nat \/ shape lut = [] ->
  exists s',
    pointOp lib image lut origin increment warnings s
    = (inl IndexError, s') /\
    calls s' = calls s /\
    ((length (shape image) < 2)%nat -> s' = s).
Proof.
  intros Hsh.
  cut (wp (pointOp lib image lut origin increment warnings) s
         (fun r s' => r = inl IndexError /\ calls s' = calls s /\
                      ((length (shape image) < 2)%nat -> s' = s))).
  { intros (r & s' & Hrun & -> & HQ)%wp_run. eauto. }
  unfold pointOp.
  destruct (shape image) as [|H [|W more]] eqn:Hi.
  - by apply wp_shape_at_none; [rewrite Hi|].
  - apply wp_bind. eapply wp_shape_at; [by rewrite Hi|].
    by apply wp_shape_at_none; [rewrite Hi|].
  - destruct Hsh as [Hsh | Hl]; [simpl in Hsh; lia|].
    do 2 (apply wp_bind; eapply wp_shape_at; [by rewrite Hi|]).
    apply wp_bind, wp_zeros; [repeat constructor; lia|]. intros lr Hlr.
    wp_simpl.
    do 2 (apply wp_bind; eapply wp_shape_at; [by rewrite Hi|]).
    apply wp_shape_at_none; [by rewrite Hl|].
    split; [done|]. split; [done|]. simpl. lia.
Qed.

(** The theorem for a flat image of six elements. *)
Lemma pointOp_too_few_axes_witness :
  exists s',
    pointOp lib_incr image_6 lut_1x2 0%float 1%float 0 mem0
    = (inl IndexError, s') /\
    calls s' = calls mem0 /\
    ((length (shape image_6) < 2)%nat -> s' = mem0).
Proof.
  apply (pointOp_too_few_axes lib_incr image_6 lut_1x2 0%float 1%float 0
           mem0).
  left. simpl. lia.
Defined.



(** X14 (the default window of [upConv] needs two axes).  Without a
    [stop], [upConv] reads the window off the shape of the result buffer
    when one is supplied and off the shape of the image otherwise.  When
    that array has fewer than two axes, and the filter is one that the
    padding accepts, [upConv] raises [IndexError] before any library
    call. *)
Theorem upConv_too_few_axes lib image filt edges step start result s
    (Fh Fw Ph Pw : nat) :
  shape filt = [Fh; Fw] \/ (Fh = 1%nat /\ shape filt = [Fw]) ->
  padded_shape Fh Fw = Some [Ph; Pw] ->
  (length (shape (default image result)) < 2)%nat ->
  exists s',
    upConv lib image filt edges step start None result s
    = (inl IndexError, s') /\
    calls s' = calls s.
Proof.
  intros Hf Hp Hsh.
  cut (wp (upConv lib image filt edges step start None result) s
         (fun r s' => r = inl IndexError /\ calls s' = calls s)).
  { intros (r & s' & Hrun & -> & Hc)%wp_run. eauto. }
  unfold upConv.
  apply (wp_upConv_head image filt edges Fh Fw Ph Pw); [done..|].
  intros li lf s1 Hc _ _ _ _ _ _ _.
  apply wp_bind.
  destruct result as [result|]; simpl in Hsh.
  - destruct (shape result) as [|H [|W more]] eqn:Hi.
    + by apply wp_shape_at_none; [rewrite Hi|].
    + apply wp_bind. eapply wp_shape_at; [by rewrite Hi|].
      by apply wp_shape_at_none; [rewrite Hi|].
    + simpl in Hsh. lia.
  - destruct (shape image) as [|H [|W more]] eqn:Hi.
    + by apply wp_shape_at_none.
    + apply wp_bind. eapply wp_shape_at; [done|].
      by apply wp_shape_at_none.
    + simpl in Hsh. lia.
Qed.

(** The theorem for the 2x3 image and a flat result buffer of one
    element. *)
Lemma upConv_too_few_axes_witness :
  exists s',
    upConv lib_incr image_2x3 filt_1x2 "reflect1" (1, 1) (0, 0) None
      (Some lut_1) mem0
    = (inl IndexError, s') /\
    calls s' = calls mem0.
Proof.
  apply (upConv_too_few_axes lib_incr image_2x3 filt_1x2 "reflect1" (1, 1)
           (0, 0) (Some lut_1) mem0 1%nat 2%nat 1%nat 3%nat).
  - left. reflexivity.
  - reflexivity.
  - simpl. lia.
Defined.

(** *** The sizes of the buffers the library is handed *)







